(** * talking-jeff: relay server and front-end controllers

    A shallow embedding of the pieces of the repository that carry its
    coordination logic:

    - the relay server ([truncateToMaxWords], the validation of
      [POST /api/chat] and [POST /api/tts/elevenlabs]);
    - [TTSController] ([speak], [cleanTextForTTS], [stop] and the audio
      event handlers);
    - [ConversationController] ([sendMessage], [callClaudeAPI],
      [getFallbackResponse], [addToHistory]);
    - [HeyGenController.speak].

    JavaScript strings are sequences of UTF-16 code units; they are modelled
    as lists of [N].  Callbacks handed to a controller are opaque: calling
    one is recorded as an event in a log.  Everything the browser or the
    network decides (fetch results, speech-synthesis events, [Math.random],
    the clock) is an explicit oracle argument. *)

From Stdlib Require Import String Ascii.
From Stdlib Require Import List NArith ZArith Lia Bool QArith Qround.
Import ListNotations.

Local Open Scope N_scope.
Local Open Scope list_scope.

(* ===================================================================== *)
(** * JavaScript strings and the built-ins the sources call *)
(* ===================================================================== *)

Module JS.

(** A string is its sequence of UTF-16 code units. *)
Definition jsstring : Type := list N.

(** An ASCII literal of the sources. *)
Definition js (s : string) : jsstring :=
  map N_of_ascii (list_ascii_of_string s).

(** [a === b] on strings. *)
Fixpoint str_eqb (a b : jsstring) : bool :=
  match a, b with
  | [], [] => true
  | x :: a', y :: b' => (x =? y) && str_eqb a' b'
  | _, _ => false
  end.

(** The class [\s] of ECMAScript regular expressions (WhiteSpace and
    LineTerminator); [String.prototype.trim] strips the same set. *)
Definition is_ws (u : N) : bool :=
  ((0x09 <=? u) && (u <=? 0x0D))
  || (u =? 0x20) || (u =? 0xA0) || (u =? 0x1680)
  || ((0x2000 <=? u) && (u <=? 0x200A))
  || (u =? 0x2028) || (u =? 0x2029) || (u =? 0x202F)
  || (u =? 0x205F) || (u =? 0x3000) || (u =? 0xFEFF).

(** [s.split(/\s+/)]: the pieces between maximal runs of whitespace.  A
    run at the start (or at the end) leaves an empty first (or last)
    piece, and the empty string splits into one empty piece. *)
Fixpoint split_ws (s : jsstring) : list jsstring :=
  match s with
  | [] => [[]]
  | u :: t =>
      let r := split_ws t in
      if is_ws u then
        match t with
        | v :: _ => if is_ws v then r else [] :: r
        | [] => [] :: r
        end
      else
        match r with
        | p :: ps => (u :: p) :: ps
        | [] => [[u]]
        end
  end.

(** [a.join(sep)] on an array of strings. *)
Fixpoint join (sep : jsstring) (a : list jsstring) : jsstring :=
  match a with
  | [] => []
  | [p] => p
  | p :: ps => p ++ sep ++ join sep ps
  end.

(** [a.slice(start)] and [a.slice(start, stop)] with the relative
    indices of [Array.prototype.slice]: a negative index counts from the
    end, and both are clamped to the array. *)
Definition rel_index (len i : Z) : Z :=
  if (i <? 0)%Z then Z.max (len + i) 0 else Z.min i len.

Definition slice {A} (a : list A) (start stop : Z) : list A :=
  let len := Z.of_nat (length a) in
  let k := rel_index len start in
  let e := rel_index len stop in
  firstn (Z.to_nat (Z.max (e - k) 0)) (skipn (Z.to_nat k) a).

Definition slice_from {A} (a : list A) (start : Z) : list A :=
  slice a start (Z.of_nat (length a)).

(** [s.replace(/\s+/g, ' ')]: every maximal run of whitespace becomes one
    space. *)
Fixpoint collapse_ws (s : jsstring) : jsstring :=
  match s with
  | [] => []
  | u :: t =>
      if is_ws u then
        match t with
        | v :: _ => if is_ws v then collapse_ws t else 0x20 :: collapse_ws t
        | [] => [0x20]
        end
      else u :: collapse_ws t
  end.

(** [s.trim()]. *)
Fixpoint trimStart (s : jsstring) : jsstring :=
  match s with
  | [] => []
  | u :: t => if is_ws u then trimStart t else s
  end.

Fixpoint trimEnd (s : jsstring) : jsstring :=
  match s with
  | [] => []
  | u :: t =>
      match trimEnd t with
      | [] => if is_ws u then [] else [u]
      | r => u :: r
      end
  end.

Definition trim (s : jsstring) : jsstring := trimEnd (trimStart s).

(** Surrogates, and the code point read at the head of a string by a
    regular expression with the [u] flag. *)
Definition is_high (u : N) : bool := (0xD800 <=? u) && (u <=? 0xDBFF).
Definition is_low (u : N) : bool := (0xDC00 <=? u) && (u <=? 0xDFFF).

Definition pair_cp (hi lo : N) : N :=
  0x10000 + (hi - 0xD800) * 0x400 + (lo - 0xDC00).

Definition in_range (lo hi cp : N) : bool := (lo <=? cp) && (cp <=? hi).

(** [s.replace(/[\u{lo}-\u{hi}]/gu, '')]: the string is read code point by
    code point (a high surrogate followed by a low one is one code point,
    any other unit stands for itself) and the code points of the range are
    dropped. *)
Fixpoint remove_range (lo hi : N) (s : jsstring) : jsstring :=
  match s with
  | [] => []
  | u :: t =>
      match t with
      | v :: t' =>
          if is_high u && is_low v then
            if in_range lo hi (pair_cp u v) then remove_range lo hi t'
            else u :: v :: remove_range lo hi t'
          else
            if in_range lo hi u then remove_range lo hi t
            else u :: remove_range lo hi t
      | [] => if in_range lo hi u then [] else [u]
      end
  end.

(** The code points of a string, read the same way. *)
Fixpoint code_points (s : jsstring) : list N :=
  match s with
  | [] => []
  | u :: t =>
      match t with
      | v :: t' =>
          if is_high u && is_low v then pair_cp u v :: code_points t'
          else u :: code_points t
      | [] => [u]
      end
  end.

(** UTF-16 encoding of a code point and of a text. *)
Definition utf16_cp (cp : N) : jsstring :=
  if cp <? 0x10000 then [cp]
  else [0xD800 + (cp - 0x10000) / 0x400; 0xDC00 + (cp - 0x10000) mod 0x400].

Definition utf16 (cps : list N) : jsstring := flat_map utf16_cp cps.

(** A Unicode scalar value: a code point that is not a surrogate. *)
Definition scalar (cp : N) : Prop :=
  cp < 0x110000 /\ is_high cp = false /\ is_low cp = false.

(** The words of a text: its maximal runs of characters that are not
    whitespace. *)
Fixpoint words (s : jsstring) : list jsstring :=
  match s with
  | [] => []
  | u :: t =>
      if is_ws u then words t
      else
        match t with
        | v :: _ =>
            if is_ws v then [u] :: words t
            else
              match words t with
              | p :: ps => (u :: p) :: ps
              | [] => [[u]]
              end
        | [] => [[u]]
        end
  end.

(** A text starts a new word where it is empty or at whitespace; [attach]
    puts a character in front of the first word. *)
Definition boundary (s : jsstring) : bool :=
  match s with
  | [] => true
  | v :: _ => is_ws v
  end.

Definition attach (u : N) (ws : list jsstring) : list jsstring :=
  match ws with
  | p :: ps => (u :: p) :: ps
  | [] => [[u]]
  end.

(** How a scalar value is encoded: by itself, or by a surrogate pair that
    reads back as the value. *)
Inductive encoding (cp : N) : jsstring -> Prop :=
| enc_unit : cp < 0x10000 -> is_high cp = false -> encoding cp [cp]
| enc_pair h l :
    is_high h = true -> is_low l = true -> pair_cp h l = cp ->
    0x10000 <= cp -> encoding cp [h; l].

End JS.

(* ===================================================================== *)
(** * Results of calls that may throw (or reject) *)
(* ===================================================================== *)

(** What a call produces: a value, or an exception (for an [async]
    function: a resolved or a rejected promise). *)
Inductive outcome (E A : Type) : Type :=
| Returned (a : A)
| Thrown (e : E).
Arguments Returned {E A} a.
Arguments Thrown {E A} e.

Definition is_thrown {E A} (o : outcome E A) : bool :=
  match o with Thrown _ => true | Returned _ => false end.

(* ===================================================================== *)
(** * The relay server *)
(* ===================================================================== *)

Module Server.
Import JS.

(** A value of a parsed JSON body.  A number is the parsed double, given
    by its rational value; an object keeps its fields in order. *)
#[warnings="-register-all"]
Inductive json : Type :=
| JNull
| JBool (b : bool)
| JNum (q : Q)
| JStr (s : jsstring)
| JArr (a : list json)
| JObj (fields : list (jsstring * json)).

(** A JavaScript value read out of a body: [None] is [undefined]. *)
Definition value : Type := option json.

Fixpoint lookup (k : jsstring) (fields : list (jsstring * json)) : value :=
  match fields with
  | [] => None
  | (k', v) :: rest => if str_eqb k k' then Some v else lookup k rest
  end.

(** [const { k } = obj]: the property [k] of a parsed body. *)
Definition field (k : string) (obj : json) : value :=
  match obj with
  | JObj fields => lookup (js k) fields
  | _ => None
  end.

(** ToBoolean. *)
Definition truthy (v : value) : bool :=
  match v with
  | None => false
  | Some JNull => false
  | Some (JBool b) => b
  | Some (JNum q) => negb (Qeq_bool q 0)
  | Some (JStr s) => match s with [] => false | _ => true end
  | Some (JArr _) => true
  | Some (JObj _) => true
  end.

Definition isArray (v : value) : bool :=
  match v with Some (JArr _) => true | _ => false end.

(** [a || b]. *)
Definition or_else (a : value) (b : json) : json :=
  if truthy a then match a with Some x => x | None => b end else b.

Inductive server_error : Type := TypeError.

(** [v.k], which throws on [undefined] and [null]. *)
Definition prop (v : value) (k : string) : outcome server_error value :=
  match v with
  | None | Some JNull => Thrown TypeError
  | Some o => Returned (field k o)
  end.

(** [v?.k]. *)
Definition opt_prop (v : value) (k : string) : value :=
  match v with
  | None | Some JNull => None
  | Some o => field k o
  end.

(** [v[0]], which throws on [undefined] and [null]. *)
Definition index0 (v : value) : outcome server_error value :=
  match v with
  | None | Some JNull => Thrown TypeError
  | Some (JArr a) => Returned (nth_error a 0)
  | Some (JStr (c :: _)) => Returned (Some (JStr [c]))
  | Some (JObj fields) => Returned (lookup (js "0") fields)
  | Some _ => Returned None
  end.

Definition MAX_RESPONSE_WORDS : nat := 15.

(** [truncateToMaxWords(text, maxWords)]. *)
Definition truncateToMaxWords (text : jsstring) (maxWords : nat) : jsstring :=
  let words := split_ws text in
  if (length words <=? maxWords)%nat then text
  else join (js " ") (slice words 0 (Z.of_nat maxWords)) ++ js "...".

(** What a handler sends back. *)
Inductive response : Type :=
| Json (status : Z) (body : json)
| AudioStream (chunks : list jsstring).

Definition error_body (msg : json) : json := JObj [(js "error", msg)].

(** What the vendor call gives: the [fetch] rejects, or it resolves with a
    response whose [ok] flag and status are given, whose JSON body is
    [reply_json] ([None] when [response.json()] rejects) and whose byte
    stream is [reply_chunks]. *)
Inductive vendor_reply : Type :=
| FetchRejected
| Reply (ok : bool) (status : Z) (reply_json : value)
        (reply_chunks : list jsstring).

(** The request sent to the vendor: the end point, and the fields of the
    JSON body that come from the client. *)
Record vendor_request : Type := {
  rq_url : jsstring;
  rq_args : list (jsstring * value)
}.

(** A handler either answers at once, or contacts the vendor and answers
    from its reply. *)
Inductive handler : Type :=
| Respond (r : response)
| CallVendor (rq : vendor_request) (k : vendor_reply -> response).

Definition internal_error : response :=
  Json 500 (error_body (JStr (js "Internal server error"))).

(** [app.post('/api/chat', ...)]. *)
Definition chat (body : json) : handler :=
  let messages := field "messages" body in
  let system := field "system" body in
  let model := field "model" body in
  let temperature := field "temperature" body in
  if negb (truthy messages) || negb (isArray messages) then
    Respond (Json 400 (error_body (JStr (js "Messages array is required"))))
  else
    CallVendor
      {| rq_url := js "https://api.openai.com/v1/chat/completions";
         rq_args :=
           [ (js "model", Some (or_else model (JStr (js "gpt-4o-mini"))));
             (js "max_tokens", Some (JNum 50));
             (js "temperature", Some (or_else temperature (JNum (8 # 10))));
             (js "system", if truthy system then system else None);
             (js "messages", messages) ] |}
      (fun reply =>
         match reply with
         | FetchRejected => internal_error
         | Reply false status None _ => internal_error
         | Reply false status (Some error) _ =>
             match prop (Some error) "error" with
             | Thrown _ => internal_error
             | Returned e =>
                 Json status
                   (error_body (or_else (opt_prop e "message")
                                        (JStr (js "API error"))))
             end
         | Reply true _ None _ => internal_error
         | Reply true _ (Some data) _ =>
             match index0 (field "choices" data) with
             | Thrown _ => internal_error
             | Returned choice =>
                 match or_else (opt_prop (opt_prop choice "message") "content")
                               (JStr (js "No response generated."))
                 with
                 | JStr responseText =>
                     Json 200
                       (JObj
                          ((js "response",
                            JStr (truncateToMaxWords responseText
                                                     MAX_RESPONSE_WORDS))
                           :: match field "usage" data with
                              | Some u => [(js "usage", u)]
                              | None => []
                              end))
                 | _ => internal_error
                 end
             end
         end).

(** [app.post('/api/tts/elevenlabs', ...)]. *)
Definition tts_elevenlabs (body : json) : handler :=
  let text := field "text" body in
  let voiceId := field "voiceId" body in
  let modelId := field "modelId" body in
  let voiceSettings := field "voiceSettings" body in
  if negb (truthy text) then
    Respond (Json 400 (error_body (JStr (js "Text is required"))))
  else
    CallVendor
      {| rq_url := js "https://api.elevenlabs.io/v1/text-to-speech/";
         rq_args :=
           [ (js "voiceId", if truthy voiceId then voiceId else None);
             (js "text", text);
             (js "model_id",
              Some (or_else modelId (JStr (js "eleven_monolingual_v1"))));
             (js "voice_settings",
              Some (or_else voiceSettings
                      (JObj [ (js "stability", JNum (5 # 10));
                              (js "similarity_boost", JNum (75 # 100)) ]))) ] |}
      (fun reply =>
         match reply with
         | FetchRejected => internal_error
         | Reply false status error _ =>
             let error := match error with Some e => e | None => JObj [] end in
             match prop (Some error) "detail" with
             | Thrown _ => internal_error
             | Returned d =>
                 Json status (error_body (or_else d (JStr (js "TTS API error"))))
             end
         | Reply true _ _ chunks => AudioStream chunks
         end).

(** Whether a handler contacts the vendor. *)
Definition contacts_vendor (h : handler) : bool :=
  match h with CallVendor _ _ => true | Respond _ => false end.

End Server.

(* ===================================================================== *)
(** * [src/js/config.js]: the settings the controllers read *)
(* ===================================================================== *)

Module CONFIG.
Import JS.

Module API.
Definition BASE_URL : jsstring := js "http://localhost:3000/api".
End API.

Module TTS.
Definition provider : jsstring := js "elevenlabs".
End TTS.

Module UI.
Definition maxHistoryMessages : Z := 50.
Definition autoScrollChat : bool := true.
End UI.

End CONFIG.

(** Errors of the front end: [new Error(message)], a [TypeError] raised by
    the runtime, or what a rejected [fetch] carries. *)
Inductive js_error : Type :=
| Error (message : JS.jsstring)
| RuntimeTypeError
| NetworkError.

(** How an awaited promise ends: it resolves, it rejects, or it never
    settles. *)
Inductive settled : Type :=
| Resolved
| Rejected (e : js_error)
| Unsettled.

(* ===================================================================== *)
(** * [TTSController] *)
(* ===================================================================== *)

Module TTSController.
Import JS.

(** A function handed to the controller by its caller. *)
Inductive callback : Type := Callback (id : nat).

Inductive producer : Type := ElevenLabs | OpenAI | Browser.

(** What can be observed of the controller from outside. *)
Inductive event : Type :=
| Run (p : producer)            (* speakWithElevenLabs/OpenAI/Browser entered *)
| Request (url text : jsstring) (* fetch to the relay *)
| Play (url : jsstring)         (* audioPlayer.play() *)
| Utter (text : jsstring)       (* speechSynthesis.speak(utterance) *)
| CallOnStart (cb : callback)   (* this.onStartCallback() *)
| CallOnEnd (cb : callback)     (* this.onEndCallback() *)
| AudioError (e : js_error).    (* onAudioError(e) entered *)

(** The [<audio>] element. *)
Record AudioPlayer : Type := {
  src : jsstring;
  paused : bool;
  currentTime : Q
}.

(** [window.speechSynthesis]: the utterances queued or being spoken. *)
Record SpeechSynthesis : Type := {
  utterances : list jsstring
}.

Record t : Type := {
  audioPlayer : option AudioPlayer;
  currentProvider : jsstring;
  isPlaying : bool;
  speechSynthesis : option SpeechSynthesis;
  currentUtterance : option jsstring;
  onStartCallback : option callback;
  onEndCallback : option callback;
  log : list event
}.

Definition set_audioPlayer (a : option AudioPlayer) (c : t) : t :=
  {| audioPlayer := a; currentProvider := currentProvider c;
     isPlaying := isPlaying c; speechSynthesis := speechSynthesis c;
     currentUtterance := currentUtterance c;
     onStartCallback := onStartCallback c;
     onEndCallback := onEndCallback c; log := log c |}.


Definition set_isPlaying (b : bool) (c : t) : t :=
  {| audioPlayer := audioPlayer c; currentProvider := currentProvider c;
     isPlaying := b; speechSynthesis := speechSynthesis c;
     currentUtterance := currentUtterance c;
     onStartCallback := onStartCallback c;
     onEndCallback := onEndCallback c; log := log c |}.

Definition set_speechSynthesis (s : option SpeechSynthesis) (c : t) : t :=
  {| audioPlayer := audioPlayer c; currentProvider := currentProvider c;
     isPlaying := isPlaying c; speechSynthesis := s;
     currentUtterance := currentUtterance c;
     onStartCallback := onStartCallback c;
     onEndCallback := onEndCallback c; log := log c |}.

Definition set_currentUtterance (u : option jsstring) (c : t) : t :=
  {| audioPlayer := audioPlayer c; currentProvider := currentProvider c;
     isPlaying := isPlaying c; speechSynthesis := speechSynthesis c;
     currentUtterance := u;
     onStartCallback := onStartCallback c;
     onEndCallback := onEndCallback c; log := log c |}.

Definition set_callbacks (onStart onEnd : option callback) (c : t) : t :=
  {| audioPlayer := audioPlayer c; currentProvider := currentProvider c;
     isPlaying := isPlaying c; speechSynthesis := speechSynthesis c;
     currentUtterance := currentUtterance c;
     onStartCallback := onStart;
     onEndCallback := onEnd; log := log c |}.

Definition set_log (l : list event) (c : t) : t :=
  {| audioPlayer := audioPlayer c; currentProvider := currentProvider c;
     isPlaying := isPlaying c; speechSynthesis := speechSynthesis c;
     currentUtterance := currentUtterance c;
     onStartCallback := onStartCallback c;
     onEndCallback := onEndCallback c; log := l |}.

Definition emit (e : event) (c : t) : t := set_log (log c ++ [e]) c.

(** [if (this.onStartCallback) this.onStartCallback()] and the same for
    [onEndCallback]. *)
Definition fire_onStart (c : t) : t :=
  match onStartCallback c with
  | Some cb => emit (CallOnStart cb) c
  | None => c
  end.

Definition fire_onEnd (c : t) : t :=
  match onEndCallback c with
  | Some cb => emit (CallOnEnd cb) c
  | None => c
  end.

(** [cleanTextForTTS(text)]. *)
Definition cleanTextForTTS (text : jsstring) : jsstring :=
  trim
    (collapse_ws
       (remove_range 0x2700 0x27BF           (* Dingbats *)
          (remove_range 0x2600 0x26FF        (* Misc symbols *)
             (remove_range 0x1F1E0 0x1F1FF   (* Flags *)
                (remove_range 0x1F680 0x1F6FF      (* Transport *)
                   (remove_range 0x1F300 0x1F5FF   (* Misc Symbols *)
                      (remove_range 0x1F600 0x1F64F text))))))). (* Emoticons *)

(** The audio event handlers. *)
Definition onAudioStart (c : t) : t := fire_onStart (set_isPlaying true c).

Definition onAudioEnd (c : t) : t := fire_onEnd (set_isPlaying false c).

Definition onAudioError (error : js_error) (c : t) : t :=
  fire_onEnd (set_isPlaying false (emit (AudioError error) c)).

(** [playAudio(url)]: throws when there is no audio element; a rejection
    of [play()] is delivered later, to [onAudioError]. *)
Definition playAudio (url : jsstring) (c : t) : settled * t :=
  match audioPlayer c with
  | None => (Rejected RuntimeTypeError, c)
  | Some a =>
      (Resolved,
       emit (Play url)
         (set_audioPlayer
            (Some {| src := url; paused := false;
                     currentTime := currentTime a |}) c))
  end.

(** What the relay answers to a speech request: the [fetch] rejects, or
    it resolves with [ok] and a status; [blob] is the object URL made of
    the body, [None] when reading the body fails. *)
Inductive relay_reply : Type :=
| RelayUnreachable
| RelayResponse (ok : bool) (status : jsstring) (blob : option jsstring).

Definition speakWithRemote (p : producer) (path prefix : string)
    (text : jsstring) (reply : relay_reply) (c : t) : settled * t :=
  let c := emit (Run p) c in
  let c := emit (Request (CONFIG.API.BASE_URL ++ js path) text) c in
  match reply with
  | RelayUnreachable => (Rejected NetworkError, c)
  | RelayResponse false status _ => (Rejected (Error (js prefix ++ status)), c)
  | RelayResponse true _ None => (Rejected RuntimeTypeError, c)
  | RelayResponse true _ (Some audioUrl) => playAudio audioUrl c
  end.

(** [speakWithElevenLabs(text)] and [speakWithOpenAI(text)]. *)
Definition speakWithElevenLabs : jsstring -> relay_reply -> t -> settled * t :=
  speakWithRemote ElevenLabs "/tts/elevenlabs" "ElevenLabs API error: ".

Definition speakWithOpenAI : jsstring -> relay_reply -> t -> settled * t :=
  speakWithRemote OpenAI "/tts/openai" "OpenAI TTS API error: ".

(** What the browser does with an utterance: whether [onstart] fires,
    and which event closes it, if any. *)
Inductive utterance_close : Type :=
| Ends                          (* onend *)
| Fails (code : jsstring)       (* onerror, with event.error = code *)
| Silent.                       (* neither *)

Record utterance_fate : Type := {
  starts : bool;
  close : utterance_close
}.

(** [speakWithBrowser(text)]: the promise and the handlers of the
    utterance. *)
Definition speakWithBrowser (text : jsstring) (fate : utterance_fate)
    (c : t) : settled * t :=
  let c := emit (Run Browser) c in
  match speechSynthesis c with
  | None => (Rejected (Error (js "Speech synthesis not supported")), c)
  | Some _ =>
      (* cancel(), then speak(utterance) *)
      let c := set_speechSynthesis (Some {| utterances := [text] |}) c in
      let c := set_currentUtterance (Some text) c in
      let c := emit (Utter text) c in
      (* utterance.onstart *)
      let c := if starts fate then fire_onStart (set_isPlaying true c) else c in
      match close fate with
      | Ends =>
          let c := set_speechSynthesis (Some {| utterances := [] |}) c in
          (Resolved,
           fire_onEnd (set_currentUtterance None (set_isPlaying false c)))
      | Fails code =>
          let c := set_speechSynthesis (Some {| utterances := [] |}) c in
          let c := set_currentUtterance None (set_isPlaying false c) in
          if str_eqb code (js "canceled") then (Unsettled, c)
          else (Rejected (Error (js "Speech synthesis error: " ++ code)), c)
      | Silent => (Unsettled, c)
      end
  end.

(** What the environment decides during one call of [speak]. *)
Record speak_env : Type := {
  relay : relay_reply;              (* answer to the remote producer *)
  first_utterance : utterance_fate; (* the utterance of the [switch] *)
  retry_utterance : utterance_fate  (* the utterance of the [catch] *)
}.

(** [speak(text, onStart, onEnd)]. *)
Definition speak (text : jsstring) (onStart onEnd : option callback)
    (env : speak_env) (c : t) : settled * t :=
  let c := set_callbacks onStart onEnd c in
  let cleanText := cleanTextForTTS text in
  let attempt :=
    if str_eqb (currentProvider c) (js "elevenlabs") then
      speakWithElevenLabs cleanText (relay env) c
    else if str_eqb (currentProvider c) (js "openai") then
      speakWithOpenAI cleanText (relay env) c
    else
      speakWithBrowser cleanText (first_utterance env) c in
  match attempt with
  | (Rejected error, c) =>
      if negb (str_eqb (currentProvider c) (js "browser")) then
        speakWithBrowser cleanText (retry_utterance env) c
      else
        (Resolved, onAudioError error c)
  | done => done
  end.

(** [stop()]. *)
Definition stop (c : t) : t :=
  let c :=
    match audioPlayer c with
    | Some a =>
        set_audioPlayer
          (Some {| src := src a; paused := true; currentTime := 0 |}) c
    | None => c
    end in
  let c :=
    match speechSynthesis c with
    | Some _ => set_speechSynthesis (Some {| utterances := [] |}) c
    | None => c
    end in
  let c := set_isPlaying false c in
  let c := set_currentUtterance None c in
  fire_onEnd c.


(** Counting in the log. *)
Definition is_run (p : producer) (e : event) : bool :=
  match e, p with
  | Run ElevenLabs, ElevenLabs | Run OpenAI, OpenAI | Run Browser, Browser => true
  | _, _ => false
  end.
Definition is_any_run (e : event) : bool :=
  match e with Run _ => true | _ => false end.
Definition is_onStart (e : event) : bool :=
  match e with CallOnStart _ => true | _ => false end.
Definition is_onEnd (e : event) : bool :=
  match e with CallOnEnd _ => true | _ => false end.
Definition is_audioError (e : event) : bool :=
  match e with AudioError _ => true | _ => false end.

Definition count (f : event -> bool) (l : list event) : nat :=
  length (filter f l).

(** The controller without its log. *)
Definition fields (c : t) : t := set_log [] c.

(** The events emitted between two states of the controller. *)
Definition since (before after : t) : list event :=
  skipn (length (log before)) (log after).

(** The code points that [cleanTextForTTS] strips: the six ranges of its
    regular expressions. *)
Definition in_stripped_ranges (cp : N) : bool :=
  in_range 0x1F600 0x1F64F cp || in_range 0x1F300 0x1F5FF cp
  || in_range 0x1F680 0x1F6FF cp || in_range 0x1F1E0 0x1F1FF cp
  || in_range 0x2600 0x26FF cp || in_range 0x2700 0x27BF cp.

(** The cleaned text as the specification words it, on the code points of
    the input: the emoji and symbol ranges are removed, and what is left
    is cut at whitespace into words that are joined by single spaces. *)
Definition cleaned_text (cps : list N) : list N :=
  join [0x20] (words (filter (fun cp => negb (in_stripped_ranges cp)) cps)).

(** A controller as its constructor leaves it on a page that has an audio
    element, with the given provider and speech synthesis. *)
Definition constructed (provider : jsstring)
    (synth : option SpeechSynthesis) : t :=
  {| audioPlayer := Some {| src := []; paused := true; currentTime := 0 |};
     currentProvider := provider;
     isPlaying := false;
     speechSynthesis := synth;
     currentUtterance := None;
     onStartCallback := None;
     onEndCallback := None;
     log := [] |}.

(** The relay cannot be reached, and the browser reports a synthesis
    failure for any utterance it is given. *)
Definition all_producers_fail : speak_env :=
  {| relay := RelayUnreachable;
     first_utterance := {| starts := false;
                           close := Fails (js "synthesis-failed") |};
     retry_utterance := {| starts := false;
                           close := Fails (js "synthesis-failed") |} |}.

(** The controller after an earlier call of [speak] registered [onEnd]
    and the speech came to its end. *)
Definition after_speech (onEnd : callback) : t :=
  set_callbacks None (Some onEnd) (constructed (js "elevenlabs") None).

(** The configured remote producer throws: the relay cannot be reached,
    or answers with an error, or its body cannot be read, or the page has
    no audio element to play it. *)
Definition remote_fails (env : speak_env) (c : t) : Prop :=
  forall st url, relay env = RelayResponse true st (Some url) ->
                 audioPlayer c = None.

End TTSController.

(* ===================================================================== *)
(** * [ConversationController] *)
(* ===================================================================== *)

Module ConversationController.
Import JS.

Inductive Role : Type := User | Assistant.

(** A value that is a string or [undefined]. *)
Inductive jsval : Type :=
| Undefined
| Str (s : jsstring).

Record Message : Type := {
  role : Role;
  content : jsval;
  timestamp : jsstring
}.

(** The controller, the panel it renders into ([None] when the page has
    no [historyContent] element) and the entry it keeps in
    [localStorage] ([None] while nothing was saved). *)
Record t : Type := {
  conversationHistory : list Message;
  isProcessing : bool;
  historyContent : option (list Message);
  savedHistory : option (list Message)
}.

Definition set_conversationHistory (h : list Message) (c : t) : t :=
  {| conversationHistory := h; isProcessing := isProcessing c;
     historyContent := historyContent c; savedHistory := savedHistory c |}.

Definition set_isProcessing (b : bool) (c : t) : t :=
  {| conversationHistory := conversationHistory c; isProcessing := b;
     historyContent := historyContent c; savedHistory := savedHistory c |}.

Definition set_historyContent (p : option (list Message)) (c : t) : t :=
  {| conversationHistory := conversationHistory c;
     isProcessing := isProcessing c;
     historyContent := p; savedHistory := savedHistory c |}.

Definition set_savedHistory (s : option (list Message)) (c : t) : t :=
  {| conversationHistory := conversationHistory c;
     isProcessing := isProcessing c;
     historyContent := historyContent c; savedHistory := s |}.

(** What the browser decides during one call of [addToHistory]: the
    clock, whether [localStorage.setItem] succeeds, and whether the DOM
    calls of [renderHistoryMessage] succeed. *)
Record bookkeeping : Type := {
  now : jsstring;
  storage_ok : bool;
  render_ok : bool
}.

(** [saveHistory()]: a failure of the storage is caught and logged. *)
Definition saveHistory (storage_ok : bool) (c : t) : t :=
  if storage_ok then set_savedHistory (Some (conversationHistory c)) c else c.

(** [renderHistoryMessage(message)]. *)
Definition renderHistoryMessage (message : Message) (render_ok : bool)
    (c : t) : outcome js_error unit * t :=
  match historyContent c with
  | None => (Returned tt, c)
  | Some panel =>
      if render_ok then
        (Returned tt, set_historyContent (Some (panel ++ [message])) c)
      else (Thrown RuntimeTypeError, c)
  end.

(** [addToHistory(role, content)], for a given value of
    [CONFIG.UI.maxHistoryMessages]. *)
Definition addToHistory_with (maxHistoryMessages : Z) (r : Role)
    (text : jsval) (bk : bookkeeping) (c : t) : outcome js_error unit * t :=
  let message := {| role := r; content := text; timestamp := now bk |} in
  let h := conversationHistory c ++ [message] in
  let h :=
    if (Z.of_nat (length h) >? maxHistoryMessages)%Z
    then slice_from h (- maxHistoryMessages)
    else h in
  let c := set_conversationHistory h c in
  let c := saveHistory (storage_ok bk) c in
  renderHistoryMessage message (render_ok bk) c.

(** [addToHistory(role, content)] under the configuration of the
    repository. *)
Definition addToHistory : Role -> jsval -> bookkeeping -> t ->
                          outcome js_error unit * t :=
  addToHistory_with CONFIG.UI.maxHistoryMessages.

(** [clearHistory()]. *)
Definition clearHistory (storage_ok : bool) (c : t) : t :=
  let c := saveHistory storage_ok (set_conversationHistory [] c) in
  match historyContent c with
  | Some _ => set_historyContent (Some []) c
  | None => c
  end.

Definition fallbackResponses : list jsstring :=
  [ js "Ah, the island breeze must have scrambled my thoughts! Could you say that again, friend? " ++ [0xF8FF; 0xFC; 0xE5; 0xA5];
    js "Hmm, the coconuts are interfering with my thinking today. Let me ponder that one... " ++ [0xF8FF; 0xFC; 0x2022; 0x2022];
    js "The waves are a bit loud right now! But I'm always happy to chat. What's on your mind?";
    js "My tropical brain needs a moment - the sun is particularly bright today! " ++ [0x201A; 0xF2; 0xC4; 0xD4; 0x220F; 0xE8];
    js "Interesting question! The ocean seems to have washed away my answer. Care to try again?" ].

(** [a[i]] for a number [i]. *)
Definition at_index (a : list jsstring) (i : Z) : jsval :=
  if (i <? 0)%Z then Undefined
  else match nth_error a (Z.to_nat i) with
       | Some s => Str s
       | None => Undefined
       end.

(** [getFallbackResponse(userMessage)]; [random] is what [Math.random()]
    returns, a double given by its rational value.  The product is taken
    exactly: rounding it to a double does not take it out of the interval
    from 0 to the length, the length excluded. *)
Definition getFallbackResponse (userMessage : jsval) (random : Q) : jsval :=
  at_index fallbackResponses
    (Qfloor (random * inject_Z (Z.of_nat (length fallbackResponses)))).

(** What the chat relay answers: the [fetch] rejects, or it resolves with
    [ok] and a body; [data] is the [response] field of the parsed body,
    [None] when the body cannot be read. *)
Inductive chat_reply : Type :=
| ChatUnreachable
| ChatResponse (ok : bool) (data : option jsval).


Definition last_content (messages : list (Role * jsval)) : jsval :=
  match rev messages with
  | (_, Str (c :: s)) :: _ => Str (c :: s)
  | _ => Str []
  end.

(** [callClaudeAPI(messages)]: every failure inside the [try] ends in the
    fallback. *)
Definition callClaudeAPI (messages : list (Role * jsval))
    (reply : chat_reply) (random : Q) : jsval :=
  match reply with
  | ChatResponse true (Some response) => response
  | _ => getFallbackResponse (last_content messages) random
  end.

(** [sendMessage(userMessage)] up to its [await]: the call is refused, or
    it fails in its bookkeeping, or it is suspended on the relay call
    with the messages it sent. *)
Inductive started : Type :=
| Refused (e : js_error)
| Failed (e : js_error)
| Awaiting (messages : list (Role * jsval)).

Definition already_processing : js_error :=
  Error (js "Already processing a message").

Definition sendMessage_begin (userMessage : jsstring) (bk : bookkeeping)
    (c : t) : started * t :=
  if isProcessing c then (Refused already_processing, c)
  else
    let c := set_isProcessing true c in
    match addToHistory User (Str userMessage) bk c with
    | (Thrown e, c) => (Failed e, set_isProcessing false c)
    | (Returned _, c) =>
        (Awaiting (map (fun m => (role m, content m))
                       (conversationHistory c)), c)
    end.

(** [sendMessage] from the answer of the relay to its end. *)
Definition sendMessage_resume (messages : list (Role * jsval))
    (reply : chat_reply) (random : Q) (bk : bookkeeping)
    (c : t) : outcome js_error jsval * t :=
  let response := callClaudeAPI messages reply random in
  match addToHistory Assistant response bk c with
  | (Thrown e, c) => (Thrown e, set_isProcessing false c)
  | (Returned _, c) => (Returned response, set_isProcessing false c)
  end.

(** What the environment decides during one turn. *)
Record turn_env : Type := {
  user_bk : bookkeeping;
  reply : chat_reply;
  random : Q;
  assistant_bk : bookkeeping
}.

(** [sendMessage(userMessage)], run from the call to the settling of its
    promise. *)
Definition sendMessage (userMessage : jsstring) (env : turn_env)
    (c : t) : outcome js_error jsval * t :=
  match sendMessage_begin userMessage (user_bk env) c with
  | (Refused e, c) => (Thrown e, c)
  | (Failed e, c) => (Thrown e, c)
  | (Awaiting messages, c) =>
      sendMessage_resume messages (reply env) (random env)
                         (assistant_bk env) c
  end.

(** The page over time: the controller and the call of [sendMessage]
    suspended on the relay, if there is one. *)
Record page : Type := {
  controller : t;
  outstanding : option (list (Role * jsval))
}.

Inductive action : Type :=
| Submit (userMessage : jsstring) (bk : bookkeeping)
| RelayAnswers (reply : chat_reply) (random : Q) (bk : bookkeeping)
| Clear (storage_ok : bool).

(** What an action makes of the page, and whether the promise that
    settles with it (if any) is rejected. *)
Definition exec (a : action) (p : page) : page * option bool :=
  match a with
  | Submit userMessage bk =>
      match sendMessage_begin userMessage bk (controller p) with
      | (Refused _, c) =>
          ({| controller := c; outstanding := outstanding p |}, Some true)
      | (Failed _, c) =>
          ({| controller := c; outstanding := outstanding p |}, Some true)
      | (Awaiting messages, c) =>
          ({| controller := c; outstanding := Some messages |}, None)
      end
  | RelayAnswers reply random bk =>
      match outstanding p with
      | None => (p, None)
      | Some messages =>
          let '(r, c) :=
            sendMessage_resume messages reply random bk (controller p) in
          ({| controller := c; outstanding := None |}, Some (is_thrown r))
      end
  | Clear storage_ok =>
      ({| controller := clearHistory storage_ok (controller p);
          outstanding := outstanding p |}, None)
  end.

Definition run (actions : list action) (p : page) : page :=
  fold_left (fun p a => fst (exec a p)) actions p.

(** A page as the constructor leaves it: whatever history was loaded, no
    turn in progress. *)
Definition fresh (c : t) : page :=
  {| controller := set_isProcessing false c; outstanding := None |}.

(** The most recent [n] entries of a history, in their order. *)
Definition most_recent {A} (n : nat) (h : list A) : list A :=
  skipn (length h - n) h.

(** Whether a call is suspended on the relay. *)
Definition waiting (p : page) : bool :=
  match outstanding p with Some _ => true | None => false end.

(** The two messages a turn adds to the history. *)
Definition user_message (userMessage : jsstring) (env : turn_env) : Message :=
  {| role := User; content := Str userMessage;
     timestamp := now (user_bk env) |}.


(** A page with its history panel, nothing said yet; the same while a
    turn is in progress. *)
Definition empty_controller : t :=
  {| conversationHistory := []; isProcessing := false;
     historyContent := Some []; savedHistory := None |}.

Definition busy_controller : t := set_isProcessing true empty_controller.

(** A turn during which the relay cannot be reached. *)
Definition relay_down : turn_env :=
  {| user_bk := {| now := js "2026-01-01T00:00:00.000Z";
                   storage_ok := true; render_ok := true |};
     reply := ChatUnreachable;
     random := 1 # 2;
     assistant_bk := {| now := js "2026-01-01T00:00:01.000Z";
                        storage_ok := true; render_ok := true |} |}.

(** A turn during which the relay cannot be reached and the panel fails
    when the reply is rendered. *)
Definition panel_breaks : turn_env :=
  {| user_bk := user_bk relay_down;
     reply := ChatUnreachable;
     random := 1 # 2;
     assistant_bk := {| now := js "2026-01-01T00:00:01.000Z";
                        storage_ok := true; render_ok := false |} |}.

End ConversationController.

(* ===================================================================== *)
(** * [HeyGenController] ([src/js/heygen.js]) *)
(* ===================================================================== *)

Module HeyGenController.
Import JS.

Inductive callback : Type := Callback (id : nat).

Inductive event : Type :=
| Request (url sessionId text : jsstring)     (* fetch to the relay *)
| CallOnSpeakingStart (cb : callback)
| CallOnError (cb : callback) (e : js_error).

Record t : Type := {
  sessionId : option jsstring;
  accessToken : option jsstring;
  isConnected : bool;
  isInitializing : bool;
  onConnected : option callback;
  onDisconnected : option callback;
  onSpeakingStart : option callback;
  onSpeakingEnd : option callback;
  onError : option callback;
  log : list event
}.

Definition emit (e : event) (c : t) : t :=
  {| sessionId := sessionId c; accessToken := accessToken c;
     isConnected := isConnected c; isInitializing := isInitializing c;
     onConnected := onConnected c; onDisconnected := onDisconnected c;
     onSpeakingStart := onSpeakingStart c; onSpeakingEnd := onSpeakingEnd c;
     onError := onError c; log := log c ++ [e] |}.

(** The parsed body of a relay response: [null], or any other value with
    its [error] and [task_id] properties. *)
Inductive reply_body : Type :=
| BodyNull
| BodyObject (error : option jsstring) (task_id : option jsstring).

(** What the relay answers: the [fetch] rejects, or it resolves with [ok]
    and a body ([None] when [response.json()] rejects). *)
Inductive relay_reply : Type :=
| RelayUnreachable
| RelayResponse (ok : bool) (body : option reply_body).

(** A relay request that succeeded, as [speak] sees it. *)
Definition relay_succeeded (reply : relay_reply) : bool :=
  match reply with
  | RelayResponse true (Some (BodyObject _ _)) => true
  | _ => false
  end.

(** [!this.sessionId]. *)
Definition no_session (c : t) : bool :=
  match sessionId c with
  | None | Some [] => true
  | Some _ => false
  end.

(** The body of the [try] block of [speak]. *)
Definition speak_try (text : jsstring) (reply : relay_reply)
    (c : t) : outcome js_error bool * t :=
  let session := match sessionId c with Some s => s | None => [] end in
  let c := emit (Request (CONFIG.API.BASE_URL ++ js "/heygen/speak")
                         session text) c in
  match reply with
  | RelayUnreachable => (Thrown NetworkError, c)
  | RelayResponse _ None => (Thrown RuntimeTypeError, c)
  | RelayResponse _ (Some BodyNull) => (Thrown RuntimeTypeError, c)
  | RelayResponse false (Some (BodyObject error _)) =>
      (Thrown (Error (match error with
                      | Some (ch :: e) => ch :: e
                      | _ => js "Failed to speak"
                      end)), c)
  | RelayResponse true (Some (BodyObject _ _)) =>
      let c := match onSpeakingStart c with
               | Some cb => emit (CallOnSpeakingStart cb) c
               | None => c
               end in
      (Returned true, c)
  end.

(** [speak(text)]. *)
Definition speak (text : jsstring) (reply : relay_reply)
    (c : t) : outcome js_error bool * t :=
  if negb (isConnected c) || no_session c then (Returned false, c)
  else
    match speak_try text reply c with
    | (Thrown error, c) =>
        let c := match onError c with
                 | Some cb => emit (CallOnError cb error) c
                 | None => c
                 end in
        (Returned false, c)
    | done => done
    end.

(** [isAvailable()]. *)
Definition isAvailable (c : t) : bool :=
  isConnected c && match sessionId c with Some _ => true | None => false end.

Definition is_request (e : event) : bool :=
  match e with Request _ _ _ => true | _ => false end.
Definition is_onError (e : event) : bool :=
  match e with CallOnError _ _ => true | _ => false end.
Definition is_onSpeakingStart (e : event) : bool :=
  match e with CallOnSpeakingStart _ => true | _ => false end.

End HeyGenController.

(* ===================================================================== *)
(** * More of the JavaScript built-ins *)
(* ===================================================================== *)

Module JSMore.
Import JS.

(** A piece of text without whitespace in it. *)
Definition solid (p : jsstring) : Prop := Forall (fun u => is_ws u = false) p.

Definition is_empty (p : jsstring) : bool :=
  match p with [] => true | _ :: _ => false end.

(** [s.startsWith(sub)] and [s.includes(sub)]. *)
Fixpoint startsWith (s sub : jsstring) : bool :=
  match sub, s with
  | [], _ => true
  | x :: sub', y :: s' => (x =? y) && startsWith s' sub'
  | _ :: _, [] => false
  end.

Fixpoint includes (s sub : jsstring) : bool :=
  startsWith s sub
  || match s with
     | [] => false
     | _ :: t => includes t sub
     end.

(** [s.split(sep)] for a separator of one character: the pieces between
    the occurrences of [sep]; the empty string gives one empty piece. *)
Fixpoint split_at (sep : N) (s : jsstring) : list jsstring :=
  match s with
  | [] => [[]]
  | u :: t =>
      if u =? sep then [] :: split_at sep t
      else match split_at sep t with
           | p :: ps => (u :: p) :: ps
           | [] => [[u]]
           end
  end.

(** [a.includes(x)] on an array of strings. *)
Definition array_includes (a : list jsstring) (x : jsstring) : bool :=
  existsb (str_eqb x) a.

End JSMore.

(* ===================================================================== *)
(** * The relay server: the other end points and the CORS policy *)
(* ===================================================================== *)

Module Gateway.
Import JS JSMore Server.

(** [res.json({k1: v1, ...})]: a property whose value is [undefined] is
    left out of the body. *)
Fixpoint present (props : list (jsstring * value)) : list (jsstring * json) :=
  match props with
  | [] => []
  | (k, Some v) :: rest => (k, v) :: present rest
  | (_, None) :: rest => present rest
  end.

Definition object (props : list (jsstring * value)) : json :=
  JObj (present props).

(** What the handlers of the ElevenLabs and HeyGen end points do with a
    vendor response that is not ok: the error body defaults to [{}] when
    it cannot be read, and its property [key] is the message. *)
Definition relay_error (key fallback : string) (status : Z)
    (error : value) : response :=
  let error := match error with Some e => e | None => JObj [] end in
  match prop (Some error) key with
  | Thrown _ => internal_error
  | Returned m => Json status (error_body (or_else m (JStr (js fallback))))
  end.

(** [app.post('/api/tts/elevenlabs-with-timestamps', ...)]. *)
Definition tts_elevenlabs_with_timestamps (body : json) : handler :=
  let text := field "text" body in
  let voiceId := field "voiceId" body in
  let modelId := field "modelId" body in
  if negb (truthy text) then
    Respond (Json 400 (error_body (JStr (js "Text is required"))))
  else
    CallVendor
      {| rq_url := js "https://api.elevenlabs.io/v1/text-to-speech/with-timestamps";
         rq_args :=
           [ (js "voiceId", if truthy voiceId then voiceId else None);
             (js "text", text);
             (js "model_id",
              Some (or_else modelId (JStr (js "eleven_monolingual_v1")))) ] |}
      (fun reply =>
         match reply with
         | FetchRejected => internal_error
         | Reply false status error _ =>
             relay_error "detail" "TTS API error" status error
         | Reply true _ None _ => internal_error
         | Reply true _ (Some data) _ =>
             match prop (Some data) "audio_base64",
                   prop (Some data) "alignment" with
             | Returned audio, Returned alignment =>
                 Json 200 (object [(js "audio_base64", audio);
                                   (js "alignment", alignment)])
             | _, _ => internal_error
             end
         end).

(** [app.post('/api/heygen/create-session', ...)]. *)
Definition heygen_create_session (body : json) : handler :=
  let avatarId := field "avatarId" body in
  let quality := field "quality" body in
  CallVendor
    {| rq_url := js "https://api.heygen.com/v1/streaming.new";
       rq_args :=
         [ (js "avatar_id", if truthy avatarId then avatarId else None);
           (js "quality", Some (or_else quality (JStr (js "medium")))) ] |}
    (fun reply =>
       match reply with
       | FetchRejected => internal_error
       | Reply false status error _ =>
           relay_error "message" "HeyGen API error" status error
       | Reply true _ None _ => internal_error
       | Reply true _ (Some data) _ =>
           match prop (Some data) "data" with
           | Thrown _ => internal_error
           | Returned d =>
               Json 200 (object [(js "session_id", opt_prop d "session_id");
                                 (js "access_token", opt_prop d "access_token");
                                 (js "url", opt_prop d "url")])
           end
       end).

(** [app.post('/api/heygen/speak', ...)]. *)
Definition heygen_speak (body : json) : handler :=
  let sessionId := field "sessionId" body in
  let text := field "text" body in
  let taskType := field "taskType" body in
  if negb (truthy sessionId) || negb (truthy text) then
    Respond (Json 400
               (error_body (JStr (js "Session ID and text are required"))))
  else
    CallVendor
      {| rq_url := js "https://api.heygen.com/v1/streaming.task";
         rq_args :=
           [ (js "session_id", sessionId);
             (js "text", text);
             (js "task_type", Some (or_else taskType (JStr (js "talk")))) ] |}
      (fun reply =>
         match reply with
         | FetchRejected => internal_error
         | Reply false status error _ =>
             relay_error "message" "HeyGen API error" status error
         | Reply true _ None _ => internal_error
         | Reply true _ (Some data) _ =>
             match prop (Some data) "data" with
             | Thrown _ => internal_error
             | Returned d => Json 200 (object [(js "task_id", opt_prop d "task_id")])
             end
         end).

(** [app.post('/api/heygen/close-session', ...)]. *)
Definition heygen_close_session (body : json) : handler :=
  let sessionId := field "sessionId" body in
  if negb (truthy sessionId) then
    Respond (Json 400 (error_body (JStr (js "Session ID is required"))))
  else
    CallVendor
      {| rq_url := js "https://api.heygen.com/v1/streaming.stop";
         rq_args := [ (js "session_id", sessionId) ] |}
      (fun reply =>
         match reply with
         | FetchRejected => internal_error
         | Reply false status error _ =>
             relay_error "message" "HeyGen API error" status error
         | Reply true _ _ _ => Json 200 (object [(js "success", Some (JBool true))])
         end).

(** [app.get('/api/heygen/avatars', ...)]. *)
Definition heygen_avatars : handler :=
  CallVendor
    {| rq_url := js "https://api.heygen.com/v1/streaming.list";
       rq_args := [] |}
    (fun reply =>
       match reply with
       | FetchRejected => internal_error
       | Reply false status error _ =>
           relay_error "message" "HeyGen API error" status error
       | Reply true _ None _ => internal_error
       | Reply true _ (Some data) _ =>
           match prop (Some data) "data" with
           | Thrown _ => internal_error
           | Returned d =>
               Json 200 (object [(js "avatars",
                                  Some (or_else (opt_prop d "avatars")
                                                (JArr [])))])
           end
       end).

(** A handler that may contact vendors one after the other. *)
Inductive exchange : Type :=
| Answer (r : response)
| Ask (rq : vendor_request) (k : vendor_reply -> exchange).

(** [app.post('/api/conversation', ...)]. *)
Definition conversation (body : json) : exchange :=
  let messages := field "messages" body in
  let system := field "system" body in
  let sessionId := field "sessionId" body in
  let useAvatar := field "useAvatar" body in
  if negb (truthy messages) || negb (isArray messages) then
    Answer (Json 400 (error_body (JStr (js "Messages array is required"))))
  else
    Ask
      {| rq_url := js "https://api.openai.com/v1/chat/completions";
         rq_args :=
           [ (js "model", Some (JStr (js "gpt-4o-mini")));
             (js "max_tokens", Some (JNum 50));
             (js "temperature", Some (JNum (8 # 10)));
             (js "system", if truthy system then system else None);
             (js "messages", messages) ] |}
      (fun chatResponse =>
         match chatResponse with
         | FetchRejected => Answer internal_error
         | Reply false status None _ => Answer internal_error
         | Reply false status (Some error) _ =>
             match prop (Some error) "error" with
             | Thrown _ => Answer internal_error
             | Returned e =>
                 Answer
                   (Json status
                      (error_body (or_else (opt_prop e "message")
                                           (JStr (js "Chat API error")))))
             end
         | Reply true _ None _ => Answer internal_error
         | Reply true _ (Some chatData) _ =>
             match index0 (field "choices" chatData) with
             | Thrown _ => Answer internal_error
             | Returned choice =>
                 match or_else (opt_prop (opt_prop choice "message") "content")
                               (JStr (js "No response generated."))
                 with
                 | JStr text =>
                     let responseText :=
                       truncateToMaxWords text MAX_RESPONSE_WORDS in
                     let without_avatar :=
                       Answer
                         (Json 200
                            (object [(js "response", Some (JStr responseText));
                                     (js "useAvatar", Some (JBool false))])) in
                     if truthy useAvatar && truthy sessionId then
                       Ask
                         {| rq_url := js "https://api.heygen.com/v1/streaming.task";
                            rq_args :=
                              [ (js "session_id", sessionId);
                                (js "text", Some (JStr responseText));
                                (js "task_type", Some (JStr (js "talk"))) ] |}
                         (fun speakResponse =>
                            match speakResponse with
                            | FetchRejected => without_avatar
                            | Reply _ _ None _ => without_avatar
                            | Reply _ _ (Some speakData) _ =>
                                match prop (Some speakData) "data" with
                                | Thrown _ => without_avatar
                                | Returned d =>
                                    Answer
                                      (Json 200
                                         (object
                                            [(js "response",
                                              Some (JStr responseText));
                                             (js "taskId", opt_prop d "task_id");
                                             (js "useAvatar", Some (JBool true))]))
                                end
                            end)
                     else without_avatar
                 | _ => Answer internal_error
                 end
             end
         end).

(** The answers an exchange can end with. *)
Inductive ends_with : exchange -> response -> Prop :=
| ends_answer r : ends_with (Answer r) r
| ends_ask rq k reply r : ends_with (k reply) r -> ends_with (Ask rq k) r.

(** A response of a chat end point respects the word cap: it is a 200
    whose [response] is a text of at most [MAX_RESPONSE_WORDS] words, or
    it is a 500. *)
Definition capped (r : response) : Prop :=
  match r with
  | Json 200 b =>
      exists text, field "response" b = Some (JStr text) /\
                   (length (words text) <= MAX_RESPONSE_WORDS)%nat
  | Json status _ => status = 500%Z
  | AudioStream _ => False
  end.

(** The value of [process.env.NAME]: a string, or [None] when unset. *)
Definition env_var : Type := option jsstring.

Definition default_origins : list jsstring :=
  [ js "http://localhost:8080"; js "http://127.0.0.1:8080";
    js "http://localhost:5500"; js "http://127.0.0.1:5500";
    js "http://localhost:3000"; js "http://127.0.0.1:3000" ].

(** [process.env.ALLOWED_ORIGINS?.split(',') || [...]]. *)
Definition allowedOrigins (ALLOWED_ORIGINS : env_var) : list jsstring :=
  match ALLOWED_ORIGINS with
  | Some s => split_at 0x2C s
  | None => default_origins
  end.

Definition nonempty (v : option jsstring) : bool :=
  match v with
  | Some (_ :: _) => true
  | _ => false
  end.

(** The [origin] function of the CORS middleware: [true] for
    [callback(null, true)], [false] for
    [callback(new Error('Not allowed by CORS'))].  [origin] is the Origin
    header of the request, [None] when it has none. *)
Definition cors_origin (ALLOWED_ORIGINS VERCEL : env_var)
    (origin : option jsstring) : bool :=
  match origin with
  | None | Some [] => true
  | Some origin =>
      if includes origin (js ".vercel.app") || includes origin (js ".vercel.sh")
      then true
      else if array_includes (allowedOrigins ALLOWED_ORIGINS) origin then true
      else if nonempty VERCEL then true
      else false
  end.

(** The end points that contact one vendor once. *)
Definition endpoints : list (json -> handler) :=
  [ chat; tts_elevenlabs; tts_elevenlabs_with_timestamps;
    heygen_create_session; heygen_speak; heygen_close_session;
    fun _ => heygen_avatars ].

(** The same without [/api/chat], which reads the error body of the
    vendor without a default. *)
Definition lenient_endpoints : list (json -> handler) :=
  [ tts_elevenlabs; tts_elevenlabs_with_timestamps;
    heygen_create_session; heygen_speak; heygen_close_session;
    fun _ => heygen_avatars ].

End Gateway.

(* ===================================================================== *)
(** * [TTSController] and [ConversationController]: the remaining parts *)
(* ===================================================================== *)

Module TTSProviders.
Import JS TTSController.


(** [getAvailableVoices()], for the voices the browser reports. *)
Definition getAvailableVoices (voices : list jsstring) (c : t) : list jsstring :=
  match speechSynthesis c with
  | Some _ => voices
  | None => []
  end.

(** A text whose whitespace is in order: good pieces are words, not empty
    and without whitespace. *)
Definition word (p : jsstring) : Prop :=
  p <> [] /\ Forall (fun u => is_ws u = false) p.

End TTSProviders.

Module ConversationStore.
Import JS ConversationController.

(** [getContext()]. *)
Definition getContext (c : t) : list Message :=
  slice_from (conversationHistory c) (-10).

(** [loadHistory()]: [readable] tells whether [JSON.parse] accepts what
    the storage holds, [render_ok] whether the DOM calls of
    [renderHistoryMessage] succeed.  Any exception leaves an empty
    history. *)
Definition loadHistory (readable render_ok : bool) (c : t) : t :=
  match savedHistory c with
  | None => c
  | Some saved =>
      if negb readable then set_conversationHistory [] c
      else
        let c := set_conversationHistory saved c in
        match historyContent c, saved with
        | None, _ => c
        | Some _, [] => c
        | Some panel, _ :: _ =>
            if render_ok then set_historyContent (Some (panel ++ saved)) c
            else set_conversationHistory [] c
        end
  end.

(** [new ConversationController()] on a page whose storage holds [saved]
    and whose panel is [panel]. *)
Definition construct (panel saved : option (list Message))
    (readable render_ok : bool) : t :=
  loadHistory readable render_ok
    {| conversationHistory := []; isProcessing := false;
       historyContent := panel; savedHistory := saved |}.

(** The page is loaded again, with an empty panel, on the storage a
    controller leaves behind. *)
Definition reload (c : t) : t := construct (Some []) (savedHistory c) true true.

(** The storage holds the history of the controller. *)
Definition in_sync (c : t) : Prop :=
  savedHistory c = Some (conversationHistory c)
  \/ (savedHistory c = None /\ conversationHistory c = []).

(** The storage accepts what an action writes. *)
Definition storage_accepts (a : action) : bool :=
  match a with
  | Submit _ bk => storage_ok bk
  | RelayAnswers _ _ bk => storage_ok bk
  | Clear ok => ok
  end.

End ConversationStore.

(* ===================================================================== *)
(** * [HeyGenController]: the session; the application's [speakResponse] *)
(* ===================================================================== *)

Module HeyGenSession.
Import JS HeyGenController.

(** What the functions of the session let the outside see. *)
Inductive signal : Type :=
| Requested (url : jsstring)                  (* fetch to the relay *)
| CalledOnConnected (cb : callback)
| CalledOnDisconnected (cb : callback)
| CalledOnError (cb : callback) (e : js_error).

Definition set_session (sid tok : option jsstring) (c : t) : t :=
  {| sessionId := sid; accessToken := tok;
     isConnected := isConnected c; isInitializing := isInitializing c;
     onConnected := onConnected c; onDisconnected := onDisconnected c;
     onSpeakingStart := onSpeakingStart c; onSpeakingEnd := onSpeakingEnd c;
     onError := onError c; log := log c |}.

Definition set_isConnected (b : bool) (c : t) : t :=
  {| sessionId := sessionId c; accessToken := accessToken c;
     isConnected := b; isInitializing := isInitializing c;
     onConnected := onConnected c; onDisconnected := onDisconnected c;
     onSpeakingStart := onSpeakingStart c; onSpeakingEnd := onSpeakingEnd c;
     onError := onError c; log := log c |}.

Definition set_isInitializing (b : bool) (c : t) : t :=
  {| sessionId := sessionId c; accessToken := accessToken c;
     isConnected := isConnected c; isInitializing := b;
     onConnected := onConnected c; onDisconnected := onDisconnected c;
     onSpeakingStart := onSpeakingStart c; onSpeakingEnd := onSpeakingEnd c;
     onError := onError c; log := log c |}.

(** The parsed body the relay sends for a new session: [null], or a value
    with its [error] property and the strings [session_id] and
    [access_token]. *)
Inductive session_body : Type :=
| SessionNull
| SessionObject (error : option jsstring) (session_id access_token : jsstring).

(** What the relay answers to [create-session]: the [fetch] rejects, or
    it resolves with [ok] and a body ([None] when [response.json()]
    rejects). *)
Inductive session_reply : Type :=
| SessionUnreachable
| SessionResponse (ok : bool) (body : option session_body).

(** The [try] block of [createSession], after the flag is set;
    [webrtc_ok] tells whether [setupWebRTC] succeeds. *)
Definition createSession_try (reply : session_reply) (webrtc_ok : bool)
    (c : t) : outcome js_error (option jsstring) * t * list signal :=
  let rq := [Requested (CONFIG.API.BASE_URL ++ js "/heygen/create-session")] in
  match reply with
  | SessionUnreachable => (Thrown NetworkError, c, rq)
  | SessionResponse _ None => (Thrown RuntimeTypeError, c, rq)
  | SessionResponse _ (Some SessionNull) => (Thrown RuntimeTypeError, c, rq)
  | SessionResponse false (Some (SessionObject error _ _)) =>
      (Thrown (Error (match error with
                      | Some (ch :: e) => ch :: e
                      | _ => js "Failed to create session"
                      end)), c, rq)
  | SessionResponse true (Some (SessionObject _ session_id access_token)) =>
      let c := set_session (Some session_id) (Some access_token) c in
      if webrtc_ok then
        let c := set_isInitializing false (set_isConnected true c) in
        (Returned (sessionId c), c,
         rq ++ match onConnected c with
               | Some cb => [CalledOnConnected cb]
               | None => []
               end)
      else (Thrown RuntimeTypeError, c, rq)
  end.

(** [createSession(avatarId, quality)]: [None] is the [undefined] it
    returns while a session is being initialized. *)
Definition createSession (reply : session_reply) (webrtc_ok : bool)
    (c : t) : outcome js_error (option jsstring) * t * list signal :=
  if isInitializing c then (Returned None, c, [])
  else
    match createSession_try reply webrtc_ok (set_isInitializing true c) with
    | (Thrown error, c, signals) =>
        let c := set_isInitializing false c in
        (Thrown error, c,
         signals ++ match onError c with
                    | Some cb => [CalledOnError cb error]
                    | None => []
                    end)
    | done => done
    end.

(** [closeSession()]; [fetched] tells whether the [fetch] resolves, with
    whatever status. *)
Definition closeSession (fetched : bool) (c : t) : t * list signal :=
  if no_session c then (c, [])
  else
    let rq := [Requested (CONFIG.API.BASE_URL ++ js "/heygen/close-session")] in
    if fetched then (set_isConnected false (set_session None None c), rq)
    else (c, rq).

(** [handleDisconnection()]. *)
Definition handleDisconnection (c : t) : t * list signal :=
  (set_isConnected false c,
   match onDisconnected c with
   | Some cb => [CalledOnDisconnected cb]
   | None => []
   end).

End HeyGenSession.

Module App.
Import JS.

(** The two functions [speakResponse] hands to [tts.speak]. *)
Definition onSpeechStart : TTSController.callback := TTSController.Callback 1.
Definition onSpeechEnd : TTSController.callback := TTSController.Callback 2.

(** The parts of [TalkingInvestigationApp] that present a reply. *)
Record t : Type := {
  useAvatar : bool;
  heygen : option HeyGenController.t;
  tts : TTSController.t
}.

(** [speakResponse(text)], to the point where it returns: the call of
    [tts.speak] is not awaited, its effects are those of the call. *)
Definition speakResponse (text : jsstring)
    (avatar_reply : HeyGenController.relay_reply)
    (env : TTSController.speak_env) (app : t) : t :=
  let with_tts (h : option HeyGenController.t) :=
    {| useAvatar := useAvatar app; heygen := h;
       tts := snd (TTSController.speak text (Some onSpeechStart)
                     (Some onSpeechEnd) env (tts app)) |} in
  match heygen app with
  | Some h =>
      if useAvatar app && HeyGenController.isAvailable h then
        match HeyGenController.speak text avatar_reply h with
        | (Returned true, h') =>
            {| useAvatar := useAvatar app; heygen := Some h'; tts := tts app |}
        | (Returned false, h') => with_tts (Some h')
        | (Thrown _, h') =>
            {| useAvatar := useAvatar app; heygen := Some h'; tts := tts app |}
        end
      else with_tts (Some h)
  | None => with_tts None
  end.

(** Whether the avatar presents the reply. *)
Definition avatar_speaks (avatar_reply : HeyGenController.relay_reply)
    (app : t) : bool :=
  match heygen app with
  | Some h =>
      useAvatar app && HeyGenController.isConnected h
      && negb (HeyGenController.no_session h)
      && HeyGenController.relay_succeeded avatar_reply
  | None => false
  end.

End App.

Module JSFacts.
Import JS.

Lemma split_ws_cons u t :
  split_ws (u :: t) =
  if is_ws u then
    match t with
    | v :: _ => if is_ws v then split_ws t else [] :: split_ws t
    | [] => [] :: split_ws t
    end
  else
    match split_ws t with
    | p :: ps => (u :: p) :: ps
    | [] => [[u]]
    end.
Proof. reflexivity. Qed.

Lemma words_cons u t :
  words (u :: t) =
  if is_ws u then words t
  else
    match t with
    | v :: _ =>
        if is_ws v then [u] :: words t
        else match words t with p :: ps => (u :: p) :: ps | [] => [[u]] end
    | [] => [[u]]
    end.
Proof. reflexivity. Qed.

(** On a text that does not end in whitespace, [split] gives the words,
    after one empty piece when the text starts with whitespace. *)
Lemma split_ws_words s :
  s <> [] -> is_ws (last s 0) = false ->
  split_ws s = (if is_ws (hd 0 s) then [[]] else []) ++ words s.
Proof.
  induction s as [|u t IH]; [congruence|].
  intros _ Hlast. destruct t as [|v t'].
  - simpl in Hlast. simpl. rewrite Hlast. reflexivity.
  - assert (IH' := IH ltac:(discriminate) Hlast).
    rewrite split_ws_cons, words_cons, IH'. cbn [hd].
    destruct (is_ws u), (is_ws v); cbn [app]; try reflexivity.
Qed.

Lemma slice_prefix {A} (a : list A) (k : nat) :
  slice a 0 (Z.of_nat k) = firstn k a.
Proof.
  unfold slice, rel_index. cbn [Z.ltb Z.compare].
  replace (Z.min 0 (Z.of_nat (length a))) with 0%Z by lia.
  cbn [Z.to_nat skipn].
  destruct (Z.ltb_spec (Z.of_nat k) 0); [exfalso; lia|].
  rewrite Z.sub_0_r.
  destruct (Nat.le_ge_cases k (length a)).
  - replace (Z.to_nat (Z.max (Z.min (Z.of_nat k) (Z.of_nat (length a))) 0)) with k by lia.
    reflexivity.
  - replace (Z.to_nat (Z.max (Z.min (Z.of_nat k) (Z.of_nat (length a))) 0)) with (length a) by lia.
    rewrite firstn_all. symmetry. apply firstn_all2. assumption.
Qed.

Lemma slice_from_suffix {A} (a : list A) (n : Z) :
  (0 < n)%Z -> slice_from a (- n) = skipn (length a - Z.to_nat n) a.
Proof.
  intros Hn. unfold slice_from, slice, rel_index.
  destruct (Z.ltb_spec (- n) 0); [|exfalso; lia].
  destruct (Z.ltb_spec (Z.of_nat (length a)) 0); [exfalso; lia|].
  rewrite Z.min_id.
  replace (Z.to_nat (Z.max (Z.of_nat (length a) + - n) 0)) with (length a - Z.to_nat n)%nat by lia.
  apply firstn_all2. rewrite length_skipn. lia.
Qed.


(** *** Whitespace *)

Lemma is_ws_bmp u : is_ws u = true -> u <= 0xFEFF.
Proof.
  unfold is_ws.
  rewrite !orb_true_iff, !andb_true_iff, !N.leb_le, !N.eqb_eq. lia.
Qed.

Lemma is_ws_surrogate u : is_high u || is_low u = true -> is_ws u = false.
Proof.
  unfold is_high, is_low, is_ws.
  rewrite !orb_true_iff, !andb_true_iff, !N.leb_le.
  intros H.
  rewrite !orb_false_iff, !andb_false_iff, !N.leb_gt, !N.eqb_neq. lia.
Qed.

Lemma is_ws_space : is_ws 0x20 = true.
Proof. reflexivity. Qed.

Lemma words_ws u s : is_ws u = true -> words (u :: s) = words s.
Proof. intros H. rewrite words_cons, H. reflexivity. Qed.

Lemma words_char u s :
  is_ws u = false ->
  words (u :: s) = if boundary s then [u] :: words s else attach u (words s).
Proof.
  intros H. rewrite words_cons, H. destruct s as [|v s']; [reflexivity|].
  cbn [boundary]. destruct (is_ws v); reflexivity.
Qed.

Lemma words_head u s :
  is_ws u = false -> exists p ps, words (u :: s) = (u :: p) :: ps.
Proof.
  intros H. rewrite words_char by assumption.
  destruct (boundary s); [eauto|].
  destruct (words s); cbn [attach]; eauto.
Qed.

Lemma join_cons_char sep u p ps :
  join sep ((u :: p) :: ps) = u :: join sep (p :: ps).
Proof. destruct ps; reflexivity. Qed.

Lemma collapse_ws_cons u t :
  collapse_ws (u :: t) =
  if is_ws u then
    if boundary t then match t with [] => [0x20] | _ => collapse_ws t end
    else 0x20 :: collapse_ws t
  else u :: collapse_ws t.
Proof.
  destruct t as [|v t']; cbn [collapse_ws boundary]; [destruct (is_ws u); reflexivity|].
  destruct (is_ws u), (is_ws v); reflexivity.
Qed.

Lemma trimEnd_cons u r :
  trimEnd (u :: r) =
  match trimEnd r with
  | [] => if is_ws u then [] else [u]
  | x :: r' => u :: x :: r'
  end.
Proof. cbn [trimEnd]. destruct (trimEnd r); reflexivity. Qed.

(** The collapsed text without its trailing whitespace. *)
Lemma trimEnd_collapse_ws s :
  trimEnd (collapse_ws s) =
  match s with
  | [] => []
  | v :: _ =>
      if is_ws v then
        match words s with
        | [] => []
        | ws => 0x20 :: join [0x20] ws
        end
      else join [0x20] (words s)
  end.
Proof.
  induction s as [|v t IH]; [reflexivity|].
  rewrite collapse_ws_cons.
  destruct (is_ws v) eqn:Hv.
  - rewrite (words_ws v t Hv).
    destruct t as [|w t']; [reflexivity|].
    cbn [boundary]. destruct (is_ws w) eqn:Hw.
    + exact IH.
    + rewrite trimEnd_cons, IH.
      destruct (words_head w t' Hw) as (p & ps & E). rewrite E.
      cbv beta iota. rewrite !join_cons_char. reflexivity.
  - rewrite trimEnd_cons, IH, (words_char v t Hv).
    destruct t as [|w t']; [rewrite Hv; reflexivity|].
    cbn [boundary]. destruct (is_ws w) eqn:Hw.
    + destruct (words (w :: t')) as [|q qs]; [rewrite Hv|]; reflexivity.
    + destruct (words_head w t' Hw) as (p & ps & E). rewrite E.
      cbn [attach]. rewrite !join_cons_char. reflexivity.
Qed.

Lemma trimStart_collapse_ws u t :
  is_ws u = true ->
  trimStart (collapse_ws (u :: t)) = trimStart (collapse_ws t).
Proof.
  intros Hu. rewrite collapse_ws_cons, Hu.
  destruct t as [|w t']; [reflexivity|].
  cbn [boundary]. destruct (is_ws w); [reflexivity|].
  cbn [trimStart]. rewrite is_ws_space. reflexivity.
Qed.

(** Collapsing the whitespace and trimming leaves the words, joined by
    single spaces. *)
Lemma trim_collapse_ws s :
  trim (collapse_ws s) = join [0x20] (words s).
Proof.
  unfold trim. induction s as [|u t IH]; [reflexivity|].
  destruct (is_ws u) eqn:Hu.
  - rewrite trimStart_collapse_ws, IH, words_ws by assumption. reflexivity.
  - replace (trimStart (collapse_ws (u :: t))) with (collapse_ws (u :: t)).
    + rewrite trimEnd_collapse_ws, Hu. reflexivity.
    + rewrite collapse_ws_cons, Hu. cbn [trimStart]. rewrite Hu. reflexivity.
Qed.


(** *** UTF-16 *)

Lemma utf16_cp_encoding cp : scalar cp -> encoding cp (utf16_cp cp).
Proof.
  intros (Hmax & Hh & Hl). unfold utf16_cp.
  destruct (N.ltb_spec cp 0x10000) as [Hlt|Hge].
  - now constructor.
  - pose proof (N.div_mod' (cp - 0x10000) 0x400) as Hdm.
    pose proof (N.mod_lt (cp - 0x10000) 0x400 ltac:(discriminate)) as Hr.
    set (q := (cp - 0x10000) / 0x400) in *.
    set (r := (cp - 0x10000) mod 0x400) in *.
    constructor.
    + unfold is_high. rewrite andb_true_iff, !N.leb_le. lia.
    + unfold is_low. rewrite andb_true_iff, !N.leb_le. lia.
    + unfold pair_cp. lia.
    + assumption.
Qed.

Lemma utf16_cons cp cps : utf16 (cp :: cps) = utf16_cp cp ++ utf16 cps.
Proof. reflexivity. Qed.

Lemma utf16_app a b : utf16 (a ++ b) = utf16 a ++ utf16 b.
Proof. apply flat_map_app. Qed.

Lemma remove_range_encoding lo hi cp e t :
  encoding cp e ->
  remove_range lo hi (e ++ t) =
  (if in_range lo hi cp then [] else e) ++ remove_range lo hi t.
Proof.
  intros [Hlt Hh | h l Hh Hl Hp Hge].
  - cbn [app]. destruct t as [|v t']; cbn [remove_range]; rewrite ?Hh;
      cbn [andb]; destruct (in_range lo hi cp); reflexivity.
  - cbn [app remove_range]. rewrite Hh, Hl, Hp. cbn [andb].
    destruct (in_range lo hi cp); reflexivity.
Qed.

Lemma code_points_encoding cp e t :
  encoding cp e -> code_points (e ++ t) = cp :: code_points t.
Proof.
  intros [Hlt Hh | h l Hh Hl Hp Hge].
  - cbn [app]. destruct t as [|v t']; cbn [code_points]; rewrite ?Hh;
      reflexivity.
  - cbn [app code_points]. rewrite Hh, Hl, Hp. reflexivity.
Qed.

(** Removing a range from a well-formed text removes the code points of
    the range, and nothing else. *)
Lemma remove_range_utf16 lo hi cps :
  Forall scalar cps ->
  remove_range lo hi (utf16 cps) =
  utf16 (filter (fun cp => negb (in_range lo hi cp)) cps).
Proof.
  induction 1 as [|cp cps Hcp _ IH]; [reflexivity|].
  rewrite utf16_cons, (remove_range_encoding lo hi cp) by
    (apply utf16_cp_encoding; assumption).
  rewrite IH. cbn [filter].
  destruct (in_range lo hi cp); reflexivity.
Qed.

(** Reading a well-formed text gives back its code points. *)
Lemma code_points_utf16 cps :
  Forall scalar cps -> code_points (utf16 cps) = cps.
Proof.
  induction 1 as [|cp cps Hcp _ IH]; [reflexivity|].
  rewrite utf16_cons, (code_points_encoding cp) by
    (apply utf16_cp_encoding; assumption).
  now rewrite IH.
Qed.

Lemma Forall_filter_keep {A} (P : A -> Prop) (f : A -> bool) l :
  Forall P l -> Forall P (filter f l).
Proof.
  rewrite !Forall_forall. intros H x Hx.
  apply filter_In in Hx. apply H, Hx.
Qed.

Lemma filter_filter {A} (f g : A -> bool) l :
  filter g (filter f l) = filter (fun x => f x && g x) l.
Proof.
  induction l as [|x l IH]; [reflexivity|].
  cbn [filter]. destruct (f x); cbn [filter andb]; rewrite IH; reflexivity.
Qed.

(** The units of a character that is not whitespace. *)
Lemma utf16_cp_char cp :
  scalar cp -> is_ws cp = false ->
  utf16_cp cp <> [] /\ Forall (fun u => is_ws u = false) (utf16_cp cp).
Proof.
  intros Hs Hw. destruct (utf16_cp_encoding cp Hs) as [Hlt Hh | h l Hh Hl Hp Hge].
  - split; [discriminate|]. repeat constructor. assumption.
  - split; [discriminate|].
    repeat constructor; apply is_ws_surrogate; rewrite ?Hh, ?Hl;
      auto using orb_true_r.
Qed.

Lemma utf16_cp_ws cp : is_ws cp = true -> utf16_cp cp = [cp].
Proof.
  intros H. apply is_ws_bmp in H. unfold utf16_cp.
  destruct (N.ltb_spec cp 0x10000); [reflexivity|lia].
Qed.

Lemma words_run e s :
  e <> [] -> Forall (fun u => is_ws u = false) e ->
  words (e ++ s) =
  if boundary s then e :: words s
  else match words s with
       | p :: ps => (e ++ p) :: ps
       | [] => [e]
       end.
Proof.
  induction e as [|u e IH]; [congruence|].
  intros _ Hall. inversion Hall as [|? ? Hu He]; subst.
  cbn [app]. rewrite (words_char u) by assumption.
  destruct e as [|u' e'].
  - cbn [app]. destruct (boundary s); [reflexivity|].
    destruct (words s); reflexivity.
  - replace (boundary ((u' :: e') ++ s)) with false
      by (inversion He; subst; cbn; congruence).
    rewrite IH by (assumption || discriminate).
    destruct (boundary s); [reflexivity|].
    destruct (words s); reflexivity.
Qed.

Lemma boundary_utf16 cps :
  Forall scalar cps -> boundary (utf16 cps) = boundary cps.
Proof.
  intros [|cp rest Hcp _]; [reflexivity|].
  rewrite utf16_cons. cbn [boundary].
  destruct (is_ws cp) eqn:Hw.
  - rewrite (utf16_cp_ws cp Hw). cbn. assumption.
  - destruct (utf16_cp_char cp Hcp Hw) as [Hne Hall].
    destruct (utf16_cp cp) as [|u e]; [congruence|].
    inversion Hall; subst. cbn. assumption.
Qed.

(** The words of a well-formed text are the encoded words of its code
    points. *)
Lemma words_utf16 cps :
  Forall scalar cps -> words (utf16 cps) = map utf16 (words cps).
Proof.
  induction 1 as [|cp cps Hcp Hcps IH]; [reflexivity|].
  rewrite utf16_cons. destruct (is_ws cp) eqn:Hw.
  - rewrite (utf16_cp_ws cp Hw). cbn [app].
    rewrite !words_ws by assumption. exact IH.
  - destruct (utf16_cp_char cp Hcp Hw) as [Hne Hall].
    rewrite words_run by assumption.
    rewrite (words_char cp) by assumption.
    rewrite (boundary_utf16 cps Hcps), IH.
    destruct (boundary cps).
    + cbn [map]. unfold utf16 at 2. cbn [flat_map]. rewrite app_nil_r.
      reflexivity.
    + destruct (words cps) as [|p ps]; cbn [map attach].
      * unfold utf16. cbn [flat_map]. rewrite app_nil_r. reflexivity.
      * rewrite utf16_cons. reflexivity.
Qed.

Lemma join_utf16 ws :
  join [0x20] (map utf16 ws) = utf16 (join [0x20] ws).
Proof.
  induction ws as [|p ps IH]; [reflexivity|].
  destruct ps as [|q qs]; [reflexivity|].
  change (join [0x20] (map utf16 (p :: q :: qs)))
    with (utf16 p ++ [0x20] ++ join [0x20] (map utf16 (q :: qs))).
  change (join [0x20] (p :: q :: qs))
    with (p ++ [0x20] ++ join [0x20] (q :: qs)).
  rewrite IH, !utf16_app. reflexivity.
Qed.

(** What the words of a text are made of. *)
Lemma in_words x w s :
  In w (words s) -> In x w -> In x s /\ is_ws x = false.
Proof.
  revert w. induction s as [|u t IH]; intros w Hw Hx; [contradiction|].
  destruct (is_ws u) eqn:Hu.
  - rewrite words_ws in Hw by assumption.
    destruct (IH w Hw Hx). split; [right|]; assumption.
  - rewrite words_char in Hw by assumption.
    destruct (boundary t).
    + destruct Hw as [<- | Hw].
      * destruct Hx as [<- | []]. split; [left; reflexivity | assumption].
      * destruct (IH w Hw Hx). split; [right|]; assumption.
    + destruct (words t) as [|p ps]; cbn [attach] in Hw.
      * destruct Hw as [<- | []]. destruct Hx as [<- | []].
        split; [left; reflexivity | assumption].
      * destruct Hw as [<- | Hw].
        -- destruct Hx as [<- | Hx]; [split; [left; reflexivity | assumption]|].
           destruct (IH p (or_introl eq_refl) Hx). split; [right|]; assumption.
        -- destruct (IH w (or_intror Hw) Hx). split; [right|]; assumption.
Qed.

Lemma in_join x sep ws :
  In x (join sep ws) -> In x sep \/ exists w, In w ws /\ In x w.
Proof.
  induction ws as [|p ps IH]; [contradiction|].
  destruct ps as [|q qs].
  - cbn [join]. intros H. right. exists p. split; [left; reflexivity | assumption].
  - change (join sep (p :: q :: qs)) with (p ++ sep ++ join sep (q :: qs)).
    rewrite !in_app_iff. intros [H | [H | H]].
    + right. exists p. split; [left; reflexivity | assumption].
    + left. assumption.
    + destruct (IH H) as [H' | (w & Hw & Hxw)]; [left; assumption|].
      right. exists w. split; [right|]; assumption.
Qed.

End JSFacts.

(* ===================================================================== *)
(** * The relay server: [truncateToMaxWords] and request validation *)
(* ===================================================================== *)

Module ServerSpec.
Import JS JSFacts Server.

(** [truncateToMaxWords] in terms of the pieces [split] produces. *)
Lemma truncateToMaxWords_pieces text k :
  truncateToMaxWords text k =
  if (length (split_ws text) <=? k)%nat then text
  else join (js " ") (firstn k (split_ws text)) ++ js "...".
Proof. unfold truncateToMaxWords. rewrite slice_prefix. reflexivity. Qed.

(** On a text that is not empty and neither starts nor ends with
    whitespace, the pieces are the words: the text is returned unchanged
    when it has at most [k] words, and cut to its first [k] words, joined
    by single spaces and followed by the ellipsis, otherwise. *)
Lemma truncateToMaxWords_trimmed text k :
  text <> [] ->
  is_ws (hd 0 text) = false ->
  is_ws (last text 0) = false ->
  truncateToMaxWords text k =
  if (length (words text) <=? k)%nat then text
  else join (js " ") (firstn k (words text)) ++ js "...".
Proof.
  intros Hne Hhd Hlast.
  rewrite truncateToMaxWords_pieces, (split_ws_words text Hne Hlast), Hhd.
  reflexivity.
Qed.

(** A reply of two words that ends with a line feed, cut at two words,
    gets the ellipsis although no word is dropped. *)
Example truncateToMaxWords_trailing_newline :
  words (js "a b" ++ [0x0A]) = [js "a"; js "b"] /\
  truncateToMaxWords (js "a b" ++ [0x0A]) 2 = js "a b...".
Proof. split; reflexivity. Qed.

(** The empty text, cut at no word, becomes the ellipsis. *)
Example truncateToMaxWords_empty :
  words [] = [] /\ truncateToMaxWords [] 0 = js "...".
Proof. split; reflexivity. Qed.

(** The same with two words: [" a b"] has the words ["a"] and ["b"], and
    cut at two words it becomes [" a..."]. *)
Example truncateToMaxWords_two_words :
  words (js " a b") = [js "a"; js "b"] /\
  split_ws (js " a b") = [[]; js "a"; js "b"] /\
  truncateToMaxWords (js " a b") 2 = js " a...".
Proof. repeat split; reflexivity. Qed.

(** C1.  [truncateToMaxWords(text, k)] should return [text] unchanged when
    it has at most [k] words.  A reply of fifteen words that starts with a
    space has no more than [MAX_RESPONSE_WORDS] words, yet it comes back
    without its last word and with the ellipsis: the whitespace in front
    makes [split] yield an empty first piece, which is counted as a
    word. *)
Theorem truncateToMaxWords_leading_space :
  length (words (js " a b c d e f g h i j k l m n o")) = MAX_RESPONSE_WORDS /\
  length (split_ws (js " a b c d e f g h i j k l m n o")) = 16%nat /\
  truncateToMaxWords (js " a b c d e f g h i j k l m n o") MAX_RESPONSE_WORDS
  = js " a b c d e f g h i j k l m n...".
Proof. repeat split; reflexivity. Qed.

(** C8, as stated, fails for an empty message list: the body
    [{messages: []}] passes the validation of [POST /api/chat] and the
    vendor is contacted. *)
Lemma chat_accepts_empty_messages :
  contacts_vendor (chat (JObj [(js "messages", JArr [])])) = true /\
  forall r, chat (JObj [(js "messages", JArr [])]) <> Respond r.
Proof. split; [reflexivity | discriminate]. Qed.

(** C8, amended.  [POST /api/chat] answers 400 with the message
    ["Messages array is required"], without contacting the vendor, exactly
    when [messages] is missing or is not an array; any array, the empty
    one included, passes.  [POST /api/tts/elevenlabs] answers 400 with
    ["Text is required"], without contacting the vendor, exactly when
    [text] is missing or falsy, the empty string included; a non-empty
    string passes. *)
Theorem validation_of_required_fields (body : json) :
  match field "messages" body with
  | Some (JArr _) => contacts_vendor (chat body) = true
  | _ =>
      chat body =
      Respond (Json 400 (error_body (JStr (js "Messages array is required"))))
  end
  /\
  (if truthy (field "text" body)
   then contacts_vendor (tts_elevenlabs body) = true
   else
     tts_elevenlabs body =
     Respond (Json 400 (error_body (JStr (js "Text is required")))))
  /\
  match field "text" body with
  | None | Some (JStr []) => truthy (field "text" body) = false
  | Some (JStr (_ :: _)) => truthy (field "text" body) = true
  | _ => True
  end.
Proof.
  repeat split.
  - unfold chat. destruct (field "messages" body) as [[]|]; try reflexivity.
    destruct b; reflexivity.
    cbn [truthy isArray]. destruct (negb _); reflexivity.
    destruct s; reflexivity.
  - unfold tts_elevenlabs. destruct (truthy (field "text" body)); reflexivity.
  - destruct (field "text" body) as [[| | |[|]| |]|]; try exact I; reflexivity.
Qed.

End ServerSpec.

(* ===================================================================== *)
(** * [TTSController]: text cleaning, producer fallback, [stop] *)
(* ===================================================================== *)

Module TTSSpec.
Import JS JSFacts TTSController.

(** ** [cleanTextForTTS] *)

Lemma scalar_space : scalar 0x20.
Proof. repeat split. Qed.

Lemma cleaned_text_from cps x :
  In x (cleaned_text cps) ->
  x = 0x20 \/ (In x cps /\ in_stripped_ranges x = false).
Proof.
  unfold cleaned_text. intros H.
  destruct (in_join _ _ _ H) as [[<- | []] | (w & Hw & Hx)]; [left; reflexivity|].
  right. destruct (in_words _ _ _ Hw Hx) as [Hin _].
  apply filter_In in Hin. destruct Hin as [Hin Hkeep].
  split; [assumption|]. now apply negb_true_iff.
Qed.

(** The six removals, one after the other, on a well-formed text. *)
Lemma remove_ranges_utf16 cps :
  Forall scalar cps ->
  remove_range 0x2700 0x27BF
    (remove_range 0x2600 0x26FF
       (remove_range 0x1F1E0 0x1F1FF
          (remove_range 0x1F680 0x1F6FF
             (remove_range 0x1F300 0x1F5FF
                (remove_range 0x1F600 0x1F64F (utf16 cps))))))
  = utf16 (filter (fun cp => negb (in_stripped_ranges cp)) cps).
Proof.
  intros H.
  repeat (rewrite remove_range_utf16 by (repeat apply Forall_filter_keep; exact H)).
  rewrite !filter_filter. f_equal. apply filter_ext. intros cp.
  unfold in_stripped_ranges. rewrite !negb_orb, !andb_assoc. reflexivity.
Qed.

(** C6, as stated for every input string, fails on strings with unpaired
    surrogates.  In the string of the units D83D, 2600, DE00 the two
    surrogates are apart; removing U+2600 brings them together, after the
    pass that removes emoticons has run, and the cleaned text is the
    emoticon U+1F600.  In the string D83C, D83D, DE00, DF89 removing
    U+1F600 joins the outer surrogates into U+1F389, which the next pass
    removes, although the input holds no code point of that range. *)
Lemma cleanTextForTTS_unpaired_surrogates :
  code_points (cleanTextForTTS [0xD83D; 0x2600; 0xDE00]) = [0x1F600] /\
  in_stripped_ranges 0x1F600 = true /\
  filter (fun cp => negb (in_stripped_ranges cp))
         (code_points [0xD83C; 0xD83D; 0xDE00; 0xDF89]) = [0xD83C; 0xDF89] /\
  cleanTextForTTS [0xD83C; 0xD83D; 0xDE00; 0xDF89] = [].
Proof. repeat split; reflexivity. Qed.

(** C6, amended.  For every well-formed input string (the UTF-16 text of
    a sequence of Unicode scalar values), [cleanTextForTTS] returns the
    UTF-16 text of [cleaned_text]: the code points outside the six emoji
    and symbol ranges, cut at whitespace into words that are joined by
    single spaces.  The code points of the result are those of
    [cleaned_text], none of them lies in a stripped range, and each of them
    is a space or a code point of the input. *)
Theorem cleanTextForTTS_well_formed (cps : list N) :
  Forall scalar cps ->
  cleanTextForTTS (utf16 cps) = utf16 (cleaned_text cps) /\
  code_points (cleanTextForTTS (utf16 cps)) = cleaned_text cps /\
  Forall (fun cp => in_stripped_ranges cp = false) (cleaned_text cps).
Proof.
  intros H.
  assert (E : cleanTextForTTS (utf16 cps) = utf16 (cleaned_text cps)).
  { unfold cleanTextForTTS, cleaned_text.
    rewrite remove_ranges_utf16 by assumption.
    rewrite trim_collapse_ws, words_utf16 by
      (apply Forall_filter_keep; assumption).
    apply join_utf16. }
  split; [exact E|]. split.
  - rewrite E. apply code_points_utf16.
    apply Forall_forall. intros x Hx.
    destruct (cleaned_text_from _ _ Hx) as [-> | [Hin _]].
    + exact scalar_space.
    + exact (proj1 (Forall_forall _ _) H x Hin).
  - apply Forall_forall. intros x Hx.
    destruct (cleaned_text_from _ _ Hx) as [-> | [_ Hk]];
      [reflexivity | assumption].
Qed.

(** The scenario of the specification: cleaning the text made of
    ["Test "], the emoji U+1F389 and [" message!!"] yields
    ["Test message!!"]. *)
Lemma cleanTextForTTS_scenario :
  Forall scalar (js "Test " ++ [0x1F389] ++ js " message!!") /\
  cleanTextForTTS (js "Test " ++ [0xD83C; 0xDF89] ++ js " message!!")
  = js "Test message!!".
Proof.
  split.
  - repeat constructor.
  - exact (proj1 (cleanTextForTTS_well_formed
                    (js "Test " ++ [0x1F389] ++ js " message!!")
                    ltac:(repeat constructor))).
Defined.

(** ** [stop] *)

(** C7, as stated, fails: once a call of [speak] has registered [onEnd],
    every call of [stop] invokes it, so a second [stop] invokes it a second
    time and the two runs do not end in the same state. *)
Lemma stop_twice_calls_onEnd_twice :
  log (stop (after_speech (Callback 1))) = [CallOnEnd (Callback 1)] /\
  log (stop (stop (after_speech (Callback 1))))
  = [CallOnEnd (Callback 1); CallOnEnd (Callback 1)] /\
  stop (stop (after_speech (Callback 1))) <> stop (after_speech (Callback 1)).
Proof. split; [reflexivity | split; [reflexivity | discriminate]]. Qed.

(** C7, amended.  Calling [stop()] twice leaves the fields of the
    controller as calling it once does.  Each call pauses the audio
    element and resets its position, cancels the speech of the browser,
    clears [isPlaying] and [currentUtterance], and invokes [onEnd] whenever
    a callback is registered, whether or not a session is active: the
    second call invokes it again. *)
Theorem stop_twice_same_fields (c : t) :
  fields (stop (stop c)) = fields (stop c) /\
  audioPlayer (stop c)
  = option_map (fun a => {| src := src a; paused := true; currentTime := 0 |})
               (audioPlayer c) /\
  speechSynthesis (stop c)
  = option_map (fun _ => {| utterances := [] |}) (speechSynthesis c) /\
  isPlaying (stop c) = false /\
  currentUtterance (stop c) = None /\
  log (stop c)
  = log c ++ match onEndCallback c with
             | Some cb => [CallOnEnd cb]
             | None => []
             end /\
  log (stop (stop c))
  = log c ++ match onEndCallback c with
             | Some cb => [CallOnEnd cb; CallOnEnd cb]
             | None => []
             end.
Proof.
  destruct c as [[a|] p pl [s|] u os [cb|] l]; cbn;
    rewrite <- ?app_assoc, ?app_nil_r; repeat split; reflexivity.
Qed.

(** ** [speak] *)

Lemma str_eqb_refl a : str_eqb a a = true.
Proof. induction a as [|x a IH]; [reflexivity|]. cbn. now rewrite N.eqb_refl. Qed.

Lemma since_app c l new : log c = l -> forall c', log c' = l ++ new -> since c c' = new.
Proof.
  intros <- c' E. unfold since. rewrite E, skipn_app, skipn_all, Nat.sub_diag.
  reflexivity.
Qed.

(** The log of the controller only grows: what a producer emits. *)
Lemma speakWithBrowser_log text fate c :
  exists new,
    log (snd (speakWithBrowser text fate c)) = log c ++ Run Browser :: new /\
    count is_any_run new = 0%nat /\
    count (is_run Browser) new = 0%nat /\
    count is_audioError new = 0%nat /\
    (count is_onStart new <= 1)%nat /\
    (forall e, fst (speakWithBrowser text fate c) = Rejected e ->
               count is_onEnd new = 0%nat).
Proof.
  unfold speakWithBrowser.
  destruct c as [a p pl [s|] u [os|] [oe|] l];
    destruct fate as [[|] [ | code | ]]; cbn -[js str_eqb];
    try match goal with
        | |- context [str_eqb ?a ?b] => destruct (str_eqb a b)
        end;
    cbn -[js]; rewrite <- ?app_assoc; cbn -[js];
    eexists; (split; [reflexivity|]); cbn; repeat split; try lia;
    intros; discriminate.
Qed.

(** When the configured remote producer throws, [speak] continues as the
    browser producer. *)
Lemma speak_after_remote_failure text onStart onEnd env c :
  currentProvider c = js "elevenlabs" \/ currentProvider c = js "openai" ->
  remote_fails env c ->
  exists p url,
    p <> Browser /\
    speak text onStart onEnd env c
    = speakWithBrowser (cleanTextForTTS text) (retry_utterance env)
        (emit (Request url (cleanTextForTTS text))
           (emit (Run p) (set_callbacks onStart onEnd c))).
Proof.
  intros Hprov Hfail. unfold speak.
  change (currentProvider (set_callbacks onStart onEnd c))
    with (currentProvider c).
  destruct Hprov as [Hp | Hp]; rewrite Hp.
  - exists ElevenLabs, (CONFIG.API.BASE_URL ++ js "/tts/elevenlabs").
    split; [discriminate|].
    change (str_eqb (js "elevenlabs") (js "elevenlabs")) with true. cbv iota.
    unfold speakWithElevenLabs, speakWithRemote.
    destruct (relay env) as [|[|] st [url|]] eqn:Hr;
      try (unfold playAudio;
           change (audioPlayer (emit _ (emit _ (set_callbacks onStart onEnd c))))
             with (audioPlayer c);
           rewrite (Hfail _ _ Hr));
      cbv iota beta;
      change (currentProvider (emit _ (emit _ (set_callbacks onStart onEnd c))))
        with (currentProvider c);
      rewrite Hp; reflexivity.
  - exists OpenAI, (CONFIG.API.BASE_URL ++ js "/tts/openai").
    split; [discriminate|].
    change (str_eqb (js "openai") (js "elevenlabs")) with false.
    change (str_eqb (js "openai") (js "openai")) with true. cbv iota.
    unfold speakWithOpenAI, speakWithRemote.
    destruct (relay env) as [|[|] st [url|]] eqn:Hr;
      try (unfold playAudio;
           change (audioPlayer (emit _ (emit _ (set_callbacks onStart onEnd c))))
             with (audioPlayer c);
           rewrite (Hfail _ _ Hr));
      cbv iota beta;
      change (currentProvider (emit _ (emit _ (set_callbacks onStart onEnd c))))
        with (currentProvider c);
      rewrite Hp; reflexivity.
Qed.

(** The part of C5 that holds: when the configured remote producer
    throws, the browser producer is run exactly once, two producers
    run in all, [onStart] is invoked at most once, and [onAudioError] is
    never entered; when the browser producer fails as well, [speak]
    rejects and [onEnd] is not invoked. *)
Lemma speak_retries_browser_once text onStart onEnd env c :
  currentProvider c = js "elevenlabs" \/ currentProvider c = js "openai" ->
  remote_fails env c ->
  let r := speak text onStart onEnd env c in
  let new := since c (snd r) in
  count (is_run Browser) new = 1%nat /\
  count is_any_run new = 2%nat /\
  (count is_onStart new <= 1)%nat /\
  count is_audioError new = 0%nat /\
  (forall e, fst r = Rejected e -> count is_onEnd new = 0%nat).
Proof.
  intros Hprov Hrelay r new.
  destruct (speak_after_remote_failure text onStart onEnd env c Hprov Hrelay)
    as (p & url & Hp & E).
  subst new r. rewrite E.
  match goal with
  | |- context [speakWithBrowser ?t ?f ?c2] =>
      destruct (speakWithBrowser_log t f c2)
        as (new & Hlog & Hany & Hrun & Herr & Hstart & Hend);
      set (out := speakWithBrowser t f c2) in *
  end.
  assert (Hsince : since c (snd out)
                   = Run p :: Request url (cleanTextForTTS text)
                       :: Run Browser :: new).
  { apply (since_app c (log c) _ eq_refl). rewrite Hlog. cbn.
    rewrite <- !app_assoc. reflexivity. }
  rewrite Hsince. unfold count in *. cbn [filter is_any_run is_onStart
    is_audioError is_onEnd is_run length].
  repeat split; try lia.
  - destruct p; cbn; try lia. congruence.
  - intros e He. apply (Hend e He).
Qed.

(** C5.  The claim asks that a failure of the local producer, after the
    primary one failed, be taken to the error path.  With the provider
    ['elevenlabs'], the relay unreachable and the browser reporting a
    synthesis failure, [speak] rejects with the error of the browser
    producer: [onAudioError] is not entered and [onEnd] is not invoked.
    With the provider ['browser'] the same failure of the local producer is
    handed to [onAudioError], which invokes [onEnd]. *)
Theorem speak_fallback_failure_not_reported :
  let onStart := Some (Callback 1) in
  let onEnd := Some (Callback 2) in
  let synth := Some {| utterances := [] |} in
  let retried :=
    speak (js "Hello") onStart onEnd all_producers_fail
          (constructed (js "elevenlabs") synth) in
  let direct :=
    speak (js "Hello") onStart onEnd all_producers_fail
          (constructed (js "browser") synth) in
  fst retried = Rejected (Error (js "Speech synthesis error: synthesis-failed")) /\
  log (snd retried)
  = [ Run ElevenLabs;
      Request (js "http://localhost:3000/api/tts/elevenlabs") (js "Hello");
      Run Browser; Utter (js "Hello") ] /\
  fst direct = Resolved /\
  log (snd direct)
  = [ Run Browser; Utter (js "Hello");
      AudioError (Error (js "Speech synthesis error: synthesis-failed"));
      CallOnEnd (Callback 2) ].
Proof. repeat split; reflexivity. Qed.

End TTSSpec.

(* ===================================================================== *)
(** * [ConversationController]: history and turn taking *)
(* ===================================================================== *)

Module ConversationSpec.
Import JS JSFacts ConversationController.

(** ** The most recent entries of a history *)

Lemma most_recent_length {A} n (h : list A) :
  length (most_recent n h) = Nat.min n (length h).
Proof. unfold most_recent. rewrite length_skipn. lia. Qed.

Lemma most_recent_all {A} n (h : list A) :
  (length h <= n)%nat -> most_recent n h = h.
Proof.
  intros H. unfold most_recent.
  replace (length h - n)%nat with 0%nat by lia. reflexivity.
Qed.

Lemma most_recent_suffix {A} n (h : list A) :
  firstn (length h - n) h ++ most_recent n h = h.
Proof. apply firstn_skipn. Qed.

Lemma most_recent_snoc {A} n (h : list A) x :
  (0 < n)%nat -> most_recent n (h ++ [x]) = most_recent (n - 1) h ++ [x].
Proof.
  intros Hn. unfold most_recent. rewrite length_app, skipn_app. cbn [length].
  replace (length h + 1 - n)%nat with (length h - (n - 1))%nat by lia.
  replace (length h - (n - 1) - length h)%nat with 0%nat by lia.
  reflexivity.
Qed.

Lemma most_recent_twice {A} n m (h : list A) :
  (n <= m)%nat -> most_recent n (most_recent m h) = most_recent n h.
Proof.
  intros Hnm. unfold most_recent. rewrite length_skipn, skipn_skipn.
  f_equal. lia.
Qed.

(** ** [addToHistory] *)

Lemma renderHistoryMessage_keeps m ok c :
  conversationHistory (snd (renderHistoryMessage m ok c)) = conversationHistory c
  /\ isProcessing (snd (renderHistoryMessage m ok c)) = isProcessing c.
Proof.
  unfold renderHistoryMessage. destruct (historyContent c), ok; split; reflexivity.
Qed.

Lemma saveHistory_keeps ok c :
  conversationHistory (saveHistory ok c) = conversationHistory c
  /\ isProcessing (saveHistory ok c) = isProcessing c
  /\ historyContent (saveHistory ok c) = historyContent c.
Proof. unfold saveHistory. destruct ok; repeat split; reflexivity. Qed.

Section Bounded.
Variable maxHistoryMessages : Z.
Hypothesis positive : (0 < maxHistoryMessages)%Z.

(** The trimming step keeps the most recent entries. *)
Lemma trim_most_recent (h : list Message) :
  (if (Z.of_nat (length h) >? maxHistoryMessages)%Z
   then slice_from h (- maxHistoryMessages) else h)
  = most_recent (Z.to_nat maxHistoryMessages) h.
Proof.
  destruct (Z.gtb_spec (Z.of_nat (length h)) maxHistoryMessages).
  - apply slice_from_suffix. assumption.
  - symmetry. apply most_recent_all. lia.
Qed.

Lemma addToHistory_with_history r text bk c :
  conversationHistory (snd (addToHistory_with maxHistoryMessages r text bk c))
  = most_recent (Z.to_nat maxHistoryMessages)
      (conversationHistory c
         ++ [{| role := r; content := text; timestamp := now bk |}]).
Proof.
  unfold addToHistory_with. rewrite trim_most_recent.
  rewrite (proj1 (renderHistoryMessage_keeps _ _ _)).
  rewrite (proj1 (saveHistory_keeps _ _)). reflexivity.
Qed.
End Bounded.

(** With a maximum of zero nothing is dropped: [slice(-0)] is the whole
    array. *)
Example addToHistory_with_zero :
  conversationHistory
    (snd (addToHistory_with 0 User (Str (js "Hello"))
            (user_bk relay_down) empty_controller))
  = [user_message (js "Hello") relay_down].
Proof. reflexivity. Qed.

Lemma addToHistory_history r text bk c :
  conversationHistory (snd (addToHistory r text bk c))
  = most_recent 50
      (conversationHistory c
         ++ [{| role := r; content := text; timestamp := now bk |}]).
Proof. apply (addToHistory_with_history 50). reflexivity. Qed.

Lemma addToHistory_isProcessing r text bk c :
  isProcessing (snd (addToHistory r text bk c)) = isProcessing c.
Proof.
  unfold addToHistory, addToHistory_with.
  rewrite (proj2 (renderHistoryMessage_keeps _ _ _)).
  rewrite (proj1 (proj2 (saveHistory_keeps _ _))). reflexivity.
Qed.

Lemma addToHistory_returns r text bk c :
  render_ok bk = true -> fst (addToHistory r text bk c) = Returned tt.
Proof.
  intros H.
  unfold addToHistory, addToHistory_with, renderHistoryMessage.
  rewrite H. destruct (historyContent _); reflexivity.
Qed.

(** C2.  After [addToHistory] appends a message, the history has at most
    [CONFIG.UI.maxHistoryMessages] entries, and they are the most recent
    ones of the old history followed by the new message, in their order:
    what is dropped is a prefix, the oldest entries. *)
Theorem addToHistory_bounded r text bk c :
  let message := {| role := r; content := text; timestamp := now bk |} in
  let h' := conversationHistory (snd (addToHistory r text bk c)) in
  (Z.of_nat (length h') <= CONFIG.UI.maxHistoryMessages)%Z /\
  h' = most_recent (Z.to_nat CONFIG.UI.maxHistoryMessages)
         (conversationHistory c ++ [message]) /\
  exists dropped, conversationHistory c ++ [message] = dropped ++ h'.
Proof.
  intros message h'. subst h'. rewrite addToHistory_history.
  split; [|split].
  - rewrite most_recent_length. unfold CONFIG.UI.maxHistoryMessages. lia.
  - reflexivity.
  - eexists. symmetry. apply most_recent_suffix.
Qed.

(** ** [getFallbackResponse] and [callClaudeAPI] *)





(** ** [sendMessage] *)

(** C3.  While a turn is processing, a call of [sendMessage] is rejected
    at once with the error ["Already processing a message"]; nothing is
    queued and the controller, its history included, is left as it was. *)
Theorem sendMessage_refused_while_processing userMessage env c :
  isProcessing c = true ->
  sendMessage userMessage env c = (Thrown already_processing, c) /\
  sendMessage_begin userMessage (user_bk env) c = (Refused already_processing, c) /\
  conversationHistory (snd (sendMessage userMessage env c))
  = conversationHistory c.
Proof.
  intros H. unfold sendMessage, sendMessage_begin. rewrite H.
  repeat split; reflexivity.
Qed.

Lemma sendMessage_refused_witness :
  isProcessing busy_controller = true /\
  sendMessage (js "Hello") relay_down busy_controller
  = (Thrown already_processing, busy_controller).
Proof.
  split; [reflexivity|].
  exact (proj1 (sendMessage_refused_while_processing
                  (js "Hello") relay_down busy_controller eq_refl)).
Defined.

(** A turn that is not refused and whose bookkeeping succeeds. *)
Lemma sendMessage_completes userMessage env c :
  isProcessing c = false ->
  render_ok (user_bk env) = true ->
  render_ok (assistant_bk env) = true ->
  let c1 := snd (addToHistory User (Str userMessage) (user_bk env)
                   (set_isProcessing true c)) in
  let response :=
    callClaudeAPI (map (fun m => (role m, content m))
                       (conversationHistory c1))
                  (reply env) (random env) in
  sendMessage userMessage env c
  = (Returned response,
     set_isProcessing false
       (snd (addToHistory Assistant response (assistant_bk env) c1))).
Proof.
  intros Hidle Hu Ha c1 response.
  unfold sendMessage, sendMessage_begin. rewrite Hidle.
  pose proof (addToHistory_returns User (Str userMessage) (user_bk env)
                (set_isProcessing true c) Hu) as E1.
  destruct (addToHistory User (Str userMessage) (user_bk env)
              (set_isProcessing true c)) as [o1 c1'] eqn:E.
  cbn [fst] in E1. subst o1. subst c1. cbn [snd] in *.
  unfold sendMessage_resume. fold response.
  pose proof (addToHistory_returns Assistant response (assistant_bk env)
                c1' Ha) as E2.
  destruct (addToHistory Assistant response (assistant_bk env) c1')
    as [o2 c2]. cbn [fst] in E2. subst o2. reflexivity.
Qed.



(** ** The flag [isProcessing] over the life of the page *)

Lemma sendMessage_resume_clears messages reply q bk c :
  isProcessing (snd (sendMessage_resume messages reply q bk c)) = false.
Proof.
  unfold sendMessage_resume.
  destruct (addToHistory Assistant _ bk c) as [[|] c']; reflexivity.
Qed.

Lemma sendMessage_begin_cases userMessage bk c :
  match fst (sendMessage_begin userMessage bk c) with
  | Refused _ =>
      isProcessing c = true /\ snd (sendMessage_begin userMessage bk c) = c
  | Failed _ =>
      isProcessing c = false /\
      isProcessing (snd (sendMessage_begin userMessage bk c)) = false
  | Awaiting _ =>
      isProcessing c = false /\
      isProcessing (snd (sendMessage_begin userMessage bk c)) = true
  end.
Proof.
  unfold sendMessage_begin. destruct (isProcessing c) eqn:E.
  - split; reflexivity.
  - pose proof (addToHistory_isProcessing User (Str userMessage) bk
                  (set_isProcessing true c)) as H.
    destruct (addToHistory User (Str userMessage) bk (set_isProcessing true c))
      as [[|] c']; cbn [fst snd] in *; split; (reflexivity || assumption).
Qed.

(** A call of [sendMessage] that finds the flag cleared leaves it cleared
    when it settles, resolved or rejected. *)
Lemma sendMessage_clears userMessage env c :
  isProcessing c = false ->
  isProcessing (snd (sendMessage userMessage env c)) = false.
Proof.
  intros Hidle. unfold sendMessage.
  pose proof (sendMessage_begin_cases userMessage (user_bk env) c) as H.
  destruct (sendMessage_begin userMessage (user_bk env) c) as [[e|e|ms] c'];
    cbn [fst snd] in *.
  - destruct H; congruence.
  - apply H.
  - apply sendMessage_resume_clears.
Qed.

Lemma clearHistory_isProcessing ok c :
  isProcessing (clearHistory ok c) = isProcessing c.
Proof.
  unfold clearHistory.
  destruct (historyContent _); cbn [isProcessing set_historyContent];
    apply (proj1 (proj2 (saveHistory_keeps ok (set_conversationHistory [] c)))).
Qed.

(** The flag is set exactly while a call is suspended on the relay: every
    action keeps it so. *)
Lemma exec_keeps_flag a p :
  isProcessing (controller p) = waiting p ->
  isProcessing (controller (fst (exec a p))) = waiting (fst (exec a p)).
Proof.
  intros Inv. destruct a as [userMessage bk | reply q bk | ok]; cbn [exec].
  - pose proof (sendMessage_begin_cases userMessage bk (controller p)) as H.
    destruct (sendMessage_begin userMessage bk (controller p))
      as [[e|e|ms] c']; cbn [fst snd] in *; unfold waiting; cbn.
    + destruct H as [_ ->]. exact Inv.
    + destruct H as [H1 H2]. rewrite H2.
      unfold waiting in Inv. rewrite H1 in Inv.
      destruct (outstanding p); [discriminate | reflexivity].
    + apply H.
  - unfold waiting in *. destruct (outstanding p) as [ms|] eqn:E.
    + pose proof (sendMessage_resume_clears ms reply q bk (controller p)) as H.
      destruct (sendMessage_resume ms reply q bk (controller p)) as [r c'].
      cbn in *. assumption.
    + cbn. rewrite E. assumption.
  - cbn. unfold waiting in *. cbn. rewrite clearHistory_isProcessing.
    assumption.
Qed.

Lemma run_keeps_flag actions p :
  isProcessing (controller p) = waiting p ->
  isProcessing (controller (run actions p)) = waiting (run actions p).
Proof.
  revert p. induction actions as [|a actions IH]; intros p Inv; [exact Inv|].
  cbn [run fold_left]. apply IH, exec_keeps_flag, Inv.
Qed.

(** A failure of the bookkeeping after the relay call: the call rejects,
    the reply is already in the history, and the flag is cleared. *)
Example sendMessage_bookkeeping_failure :
  fst (sendMessage (js "Hello") panel_breaks empty_controller)
  = Thrown RuntimeTypeError /\
  length (conversationHistory
            (snd (sendMessage (js "Hello") panel_breaks empty_controller)))
  = 2%nat /\
  isProcessing (snd (sendMessage (js "Hello") panel_breaks empty_controller))
  = false.
Proof. repeat split; reflexivity. Qed.

(** C9.  On every page reached from a fresh controller by calls of
    [sendMessage], answers of the relay and calls of [clearHistory]:
    [isProcessing] is set exactly while a call of [sendMessage] is
    suspended on the relay; a call made while no call is outstanding ends
    with the flag cleared, whether it resolves or rejects, failures of the
    history bookkeeping before or after the relay call included; the
    outstanding call clears the flag when the relay answers; and a call is
    refused as busy only while a call is outstanding. *)
Theorem isProcessing_released (c : t) (actions : list action) :
  let p := run actions (fresh c) in
  isProcessing (controller p) = waiting p /\
  (forall userMessage env,
      waiting p = false ->
      isProcessing (snd (sendMessage userMessage env (controller p))) = false) /\
  (forall reply q bk,
      isProcessing (controller (fst (exec (RelayAnswers reply q bk) p)))
      = false /\
      waiting (fst (exec (RelayAnswers reply q bk) p)) = false) /\
  (forall userMessage bk e,
      fst (sendMessage_begin userMessage bk (controller p)) = Refused e ->
      waiting p = true).
Proof.
  intros p.
  assert (Inv : isProcessing (controller p) = waiting p)
    by (apply run_keeps_flag; reflexivity).
  split; [exact Inv|]. split; [|split].
  - intros userMessage env Hw. apply sendMessage_clears. congruence.
  - intros reply q bk.
    pose proof (exec_keeps_flag (RelayAnswers reply q bk) p Inv) as H.
    assert (Hw : waiting (fst (exec (RelayAnswers reply q bk) p)) = false).
    { cbn [exec]. unfold waiting in *.
      destruct (outstanding p) as [ms|] eqn:E.
      - destruct (sendMessage_resume ms reply q bk (controller p)); reflexivity.
      - cbn. rewrite E. reflexivity. }
    split; [congruence | exact Hw].
  - intros userMessage bk e He.
    pose proof (sendMessage_begin_cases userMessage bk (controller p)) as H.
    rewrite He in H. destruct H as [H _]. congruence.
Qed.

(** A turn on a fresh page: refused while the relay call is outstanding,
    accepted again once the relay has answered. *)
Lemma isProcessing_released_witness :
  let p := run [Submit (js "Hello") (user_bk relay_down)]
               (fresh empty_controller) in
  waiting p = true /\
  fst (sendMessage_begin (js "again") (user_bk relay_down) (controller p))
  = Refused already_processing /\
  isProcessing
    (controller
       (fst (exec (RelayAnswers ChatUnreachable (1 # 2) (assistant_bk relay_down))
                  p))) = false.
Proof.
  intros p.
  pose proof (isProcessing_released empty_controller
                [Submit (js "Hello") (user_bk relay_down)]) as H.
  cbv zeta in H. fold p in H. destruct H as (_ & _ & Hrelay & Hbusy).
  assert (Hr : fst (sendMessage_begin (js "again") (user_bk relay_down)
                      (controller p)) = Refused already_processing)
    by reflexivity.
  split; [exact (Hbusy _ _ _ Hr)|]. split; [exact Hr|].
  exact (proj1 (Hrelay ChatUnreachable (1 # 2) (assistant_bk relay_down))).
Defined.

End ConversationSpec.

(* ===================================================================== *)
(** * [HeyGenController.speak] *)
(* ===================================================================== *)

Module HeyGenSpec.
Import JS HeyGenController.

Lemma isAvailable_connected c :
  isAvailable c = true -> isConnected c = true /\ sessionId c <> None.
Proof.
  unfold isAvailable. rewrite andb_true_iff.
  destruct (sessionId c); intros [H1 H2]; (discriminate || split; congruence).
Qed.

(** When [isAvailable()] is false, [speak] returns [false] without a
    request. *)
Lemma speak_unavailable text reply c :
  isAvailable c = false -> speak text reply c = (Returned false, c).
Proof.
  unfold isAvailable, speak, no_session. intros H.
  destruct (isConnected c); [|reflexivity].
  destruct (sessionId c); [discriminate | reflexivity].
Qed.

(** C10.  [speak] never throws.  Not connected, or without a session id,
    it returns [false] and leaves the controller as it was: no request is
    made.  Otherwise it makes one request to the relay; when the request
    succeeds it invokes [onSpeakingStart], if registered, and returns
    [true]; when it fails it invokes [onError], if registered, with the
    error and returns [false].  So [true] is returned only on a successful
    relay response. *)
Theorem speak_never_throws (text : jsstring) (reply : relay_reply) (c : t) :
  (exists b, fst (speak text reply c) = Returned b) /\
  (if negb (isConnected c) || no_session c then
     speak text reply c = (Returned false, c)
   else
     exists request,
       is_request request = true /\
       if relay_succeeded reply then
         fst (speak text reply c) = Returned true /\
         log (snd (speak text reply c))
         = log c ++ request
             :: match onSpeakingStart c with
                | Some cb => [CallOnSpeakingStart cb]
                | None => []
                end
       else
         fst (speak text reply c) = Returned false /\
         exists error,
           log (snd (speak text reply c))
           = log c ++ request
               :: match onError c with
                  | Some cb => [CallOnError cb error]
                  | None => []
                  end) /\
  (fst (speak text reply c) = Returned true ->
   relay_succeeded reply = true /\ isConnected c = true /\ no_session c = false).
Proof.
  unfold speak.
  destruct (negb (isConnected c) || no_session c) eqn:Hguard.
  - repeat split; [eexists; reflexivity | discriminate | discriminate | discriminate].
  - apply orb_false_iff in Hguard. destruct Hguard as [Hc Hs].
    apply negb_false_iff in Hc.
    destruct c as [sid tok conn ini oc od oss ose oe l]. cbn in Hc, Hs. subst conn.
    destruct reply as [|[|] [[|err task]|]]; unfold speak_try, relay_succeeded;
      cbn -[js CONFIG.API.BASE_URL];
      destruct oss, oe; cbn -[js CONFIG.API.BASE_URL];
      rewrite <- ?app_assoc; cbn -[js CONFIG.API.BASE_URL];
      (split; [eexists; reflexivity|]);
      (split;
       [ eexists; split; [|split; [reflexivity|]];
         [ | first [ reflexivity
                   | exists NetworkError; reflexivity
                   | eexists; reflexivity ] ];
         reflexivity
       | intros H; first [discriminate H | repeat split; exact Hs] ]).
Qed.

End HeyGenSpec.

(* ===================================================================== *)
(** * Further properties of the relay server *)
(* ===================================================================== *)

Module TruncateFacts.
Import JS JSFacts JSMore Server.

(** ** The pieces [split] produces *)

Lemma split_ws_head s :
  exists p ps, split_ws s = p :: ps /\ is_empty p = boundary s.
Proof.
  induction s as [|u t IH]; [exists [], []; split; reflexivity|].
  destruct IH as (p & ps & E & Hp).
  rewrite split_ws_cons, E. cbn [boundary].
  destruct (is_ws u).
  - destruct t as [|v t']; [eexists _, _; split; reflexivity|].
    cbn [boundary] in Hp. destruct (is_ws v).
    + exists p, ps. split; [reflexivity | assumption].
    + eexists _, _; split; reflexivity.
  - eexists _, _; split; reflexivity.
Qed.

(** The words are the pieces that are not empty. *)
Lemma words_split_ws s :
  words s = filter (fun p => negb (is_empty p)) (split_ws s).
Proof.
  induction s as [|u t IH]; [reflexivity|].
  destruct (split_ws_head t) as (p & ps & E & Hp).
  rewrite split_ws_cons, E.
  destruct (is_ws u) eqn:Hu.
  - rewrite words_ws, IH, E by assumption.
    destruct t as [|v t']; [reflexivity|].
    cbn [boundary] in Hp. destruct (is_ws v); [reflexivity|].
    reflexivity.
  - rewrite words_char, IH, E by assumption. rewrite <- Hp.
    destruct p as [|x p']; reflexivity.
Qed.

Lemma words_length_split_ws s :
  (length (words s) <= length (split_ws s))%nat.
Proof. rewrite words_split_ws. apply filter_length_le. Qed.

Lemma split_ws_solid s : Forall solid (split_ws s).
Proof.
  induction s as [|u t IH]; [repeat constructor|].
  rewrite split_ws_cons. destruct (is_ws u) eqn:Hu.
  - destruct t as [|v t']; [repeat constructor|].
    destruct (is_ws v); [assumption|]. constructor; [constructor | assumption].
  - destruct (split_ws t) as [|p ps]; [repeat constructor; assumption|].
    inversion IH; subst. constructor; [constructor; assumption | assumption].
Qed.

(** A solid piece in front of a text joins the first piece of the
    text. *)
Lemma split_ws_run p s :
  solid p ->
  split_ws (p ++ s) =
  match split_ws s with
  | h :: r => (p ++ h) :: r
  | [] => [p]
  end.
Proof.
  intros Hp. induction Hp as [|u p Hu _ IH]; cbn [app].
  - destruct (split_ws_head s) as (h & r & E & _). rewrite E. reflexivity.
  - rewrite split_ws_cons, Hu, IH. destruct (split_ws s); reflexivity.
Qed.

Lemma split_ws_space_length s :
  (length (split_ws (0x20%N :: s)) <= S (length (split_ws s)))%nat.
Proof.
  rewrite split_ws_cons, is_ws_space.
  destruct s as [|v t]; [cbn; lia|]. destruct (is_ws v); cbn [length]; lia.
Qed.

(** Pieces joined by single spaces, with a solid tail: no more pieces,
    and no more words, than were joined. *)
Lemma split_ws_join_length ps d :
  ps <> [] -> Forall solid ps -> solid d ->
  (length (split_ws (join [0x20%N] ps ++ d)) <= length ps)%nat.
Proof.
  intros Hne Hps Hd. induction Hps as [|p ps Hp Hps' IH]; [congruence|].
  destruct ps as [|q qs].
  - cbn [join]. rewrite <- (app_nil_r (p ++ d)).
    rewrite split_ws_run by (apply Forall_app; split; assumption).
    cbn. lia.
  - change (join [0x20] (p :: q :: qs)) with (p ++ [0x20] ++ join [0x20] (q :: qs)).
    rewrite <- !app_assoc. rewrite split_ws_run by assumption.
    cbn [app].
    pose proof (split_ws_space_length (join [0x20] (q :: qs) ++ d)) as H1.
    specialize (IH ltac:(discriminate)).
    destruct (split_ws (0x20 :: join [0x20] (q :: qs) ++ d)); cbn [length] in *; lia.
Qed.

Lemma Forall_firstn_keep {A} (P : A -> Prop) k (l : list A) :
  Forall P l -> Forall P (firstn k l).
Proof.
  intros H. revert k. induction H as [|x l Hx _ IH]; intros [|k]; cbn;
    constructor; auto.
Qed.

Lemma dots_solid : solid (js "...").
Proof. repeat constructor. Qed.

Lemma firstn_cut {A} k (l : list A) :
  (k < length l)%nat -> (1 <= k)%nat ->
  firstn k l <> [] /\ length (firstn k l) = k.
Proof.
  intros Hk H1. split.
  - destruct l; [cbn in Hk; lia|]. destruct k; [lia|]. discriminate.
  - rewrite length_firstn. lia.
Qed.

Lemma cut_text_words ps k :
  (k < length ps)%nat -> (1 <= k)%nat -> Forall solid ps ->
  (length (words (join (js " ") (firstn k ps) ++ js "...")) <= k)%nat.
Proof.
  intros Hgt Hk Hps.
  destruct (firstn_cut k ps Hgt Hk) as [Hne Hlen].
  etransitivity; [apply words_length_split_ws|].
  etransitivity;
    [apply split_ws_join_length;
     [assumption | apply Forall_firstn_keep, Hps | apply dots_solid]|].
  lia.
Qed.

(** X1.  For a limit of at least one word, what [truncateToMaxWords]
    returns never has more words than the limit, whatever the text: the
    cap holds also where the function cuts more than it should. *)
Theorem truncateToMaxWords_word_cap text k :
  (1 <= k)%nat ->
  (length (words (truncateToMaxWords text k)) <= k)%nat.
Proof.
  intros Hk. unfold truncateToMaxWords. rewrite slice_prefix.
  destruct (Nat.leb_spec (length (split_ws text)) k) as [Hle|Hgt].
  - pose proof (words_length_split_ws text). lia.
  - apply cut_text_words; [assumption | assumption | apply split_ws_solid].
Qed.

Lemma truncateToMaxWords_word_cap_witness :
  (length (words (truncateToMaxWords (js "  one two   three four ") 2)) <= 2)%nat.
Proof. apply truncateToMaxWords_word_cap. lia. Defined.

Lemma truncateToMaxWords_keep text k :
  (length (split_ws text) <= k)%nat -> truncateToMaxWords text k = text.
Proof.
  intros H. unfold truncateToMaxWords. apply Nat.leb_le in H. rewrite H.
  reflexivity.
Qed.

Lemma truncateToMaxWords_cut text k :
  (k < length (split_ws text))%nat ->
  truncateToMaxWords text k
  = join (js " ") (firstn k (split_ws text)) ++ js "...".
Proof.
  intros H. unfold truncateToMaxWords. rewrite slice_prefix.
  apply Nat.leb_gt in H. rewrite H. reflexivity.
Qed.

(** X2.  [truncateToMaxWords] is idempotent: truncating a truncated text
    to the same limit changes nothing, for every text and every limit. *)
Theorem truncateToMaxWords_idempotent text k :
  truncateToMaxWords (truncateToMaxWords text k) k = truncateToMaxWords text k.
Proof.
  destruct (Nat.le_gt_cases (length (split_ws text)) k) as [Hle|Hgt].
  - rewrite !(truncateToMaxWords_keep text k Hle). reflexivity.
  - rewrite (truncateToMaxWords_cut text k Hgt).
    destruct k as [|k']; [reflexivity|].
    destruct (firstn_cut (S k') (split_ws text) Hgt ltac:(lia)) as [Hne Hlen].
    apply truncateToMaxWords_keep. rewrite <- Hlen at 2.
    apply split_ws_join_length;
      [assumption | apply Forall_firstn_keep, split_ws_solid | apply dots_solid].
Qed.

End TruncateFacts.

Module GatewayFacts.
Import JS JSFacts JSMore Server Gateway TruncateFacts.

Lemma capped_text text :
  (length (words (truncateToMaxWords text MAX_RESPONSE_WORDS))
   <= MAX_RESPONSE_WORDS)%nat.
Proof.
  destruct (Nat.le_gt_cases (length (split_ws text)) MAX_RESPONSE_WORDS) as [H|H].
  - rewrite truncateToMaxWords_keep by assumption.
    pose proof (words_length_split_ws text). lia.
  - rewrite truncateToMaxWords_cut by assumption.
    apply cut_text_words; [assumption | unfold MAX_RESPONSE_WORDS; lia
                          | apply split_ws_solid].
Qed.

(** X3.  When the vendor answers ok, [POST /api/chat] responds either 200
    with a [response] text of at most [MAX_RESPONSE_WORDS] words, or 500:
    whatever text the model produced, no longer text leaves the end
    point. *)
Theorem chat_reply_capped body rq k status data chunks :
  chat body = CallVendor rq k ->
  capped (k (Reply true status data chunks)).
Proof.
  unfold chat.
  destruct (negb (truthy (field "messages" body))
            || negb (isArray (field "messages" body))); [discriminate|].
  intros E. injection E as _ <-.
  destruct data as [data|]; [|reflexivity].
  destruct (index0 (field "choices" data)) as [choice|]; [|reflexivity].
  destruct (or_else _ _) as [| | |text| |]; try reflexivity.
  cbn [capped]. eexists. split; [reflexivity | apply capped_text].
Qed.

Lemma chat_reply_capped_witness :
  exists rq k,
    chat (JObj [(js "messages", JArr [])]) = CallVendor rq k /\
    capped
      (k (Reply true 200
            (Some (JObj [(js "choices",
                          JArr [JObj [(js "message",
                                       JObj [(js "content",
                                              JStr (js "a b c d e f g h i j k l m n o p q"))])]])]))
            [])).
Proof.
  eexists _, _. split; [reflexivity|].
  exact (chat_reply_capped (JObj [(js "messages", JArr [])]) _ _ 200 _ []
           eq_refl).
Defined.

(** ** [POST /api/conversation] *)

(** X4.  When the vendor answers the chat request ok, every answer
    [POST /api/conversation] can end with, with or without the avatar
    step, is a 200 whose [response] has at most [MAX_RESPONSE_WORDS]
    words, or a 500. *)
Theorem conversation_reply_capped body rq k status chatData chunks r :
  conversation body = Ask rq k ->
  ends_with (k (Reply true status chatData chunks)) r ->
  capped r.
Proof.
  unfold conversation.
  destruct (negb (truthy (field "messages" body))
            || negb (isArray (field "messages" body))); [discriminate|].
  intros E. injection E as _ <-.
  destruct chatData as [chatData|];
    [|intros H; inversion H; subst; reflexivity].
  destruct (index0 (field "choices" chatData)) as [choice|];
    [|intros H; inversion H; subst; reflexivity].
  destruct (or_else _ _) as [| | |text| |];
    try (intros H; inversion H; subst; reflexivity).
  assert (Hcap : forall props,
             capped (Json 200
                       (object ((js "response",
                                 Some (JStr (truncateToMaxWords text
                                               MAX_RESPONSE_WORDS)))
                                :: props)))).
  { intros props. cbn [capped]. eexists. split; [reflexivity|].
    apply capped_text. }
  destruct (truthy (field "useAvatar" body) && truthy (field "sessionId" body)).
  - intros H. inversion H as [|? ? reply ? H']; subst. clear H.
    destruct reply as [|ok2 st2 [speakData|] c2];
      [inversion H'; subst; apply Hcap | | inversion H'; subst; apply Hcap].
    destruct speakData; inversion H'; subst; apply Hcap.
  - intros H. inversion H; subst. apply Hcap.
Qed.

Lemma conversation_reply_capped_witness :
  exists rq k r,
    conversation (JObj [(js "messages", JArr [])]) = Ask rq k /\
    ends_with (k (Reply true 200 (Some (JObj [(js "choices", JArr [])])) [])) r /\
    capped r.
Proof.
  eexists _, _, _. split; [reflexivity|].
  assert (H : ends_with
                (Answer
                   (Json 200
                      (object [(js "response",
                                Some (JStr (js "No response generated.")));
                               (js "useAvatar", Some (JBool false))])))
                (Json 200
                   (object [(js "response",
                             Some (JStr (js "No response generated.")));
                            (js "useAvatar", Some (JBool false))])))
    by constructor.
  split; [exact H|].
  exact (conversation_reply_capped (JObj [(js "messages", JArr [])]) _ _ 200
           (Some (JObj [(js "choices", JArr [])])) [] _ eq_refl H).
Defined.

(** X5.  With [useAvatar] and [sessionId] set, [POST /api/conversation]
    sends the truncated reply to the avatar and does not look at the
    status of the answer: any answer whose body is JSON other than [null],
    an error answer of the vendor included, ends the request with
    [useAvatar: true]; only when the avatar cannot be reached does the
    request end with [useAvatar: false].  Both carry the same [response]. *)
Theorem conversation_avatar_unchecked body rq k status chatData chunks rq2 k2 :
  conversation body = Ask rq k ->
  k (Reply true status chatData chunks) = Ask rq2 k2 ->
  exists text,
    lookup (js "text") (present (rq_args rq2)) = Some (JStr text) /\
    (forall ok2 status2 speakData chunks2,
        speakData <> JNull ->
        exists b,
          k2 (Reply ok2 status2 (Some speakData) chunks2) = Answer (Json 200 b) /\
          field "response" b = Some (JStr text) /\
          field "useAvatar" b = Some (JBool true)) /\
    (exists b,
        k2 FetchRejected = Answer (Json 200 b) /\
        field "response" b = Some (JStr text) /\
        field "useAvatar" b = Some (JBool false)).
Proof.
  unfold conversation.
  destruct (negb (truthy (field "messages" body))
            || negb (isArray (field "messages" body))); [discriminate|].
  intros E. injection E as _ <-.
  destruct chatData as [chatData|]; [|discriminate].
  destruct (index0 (field "choices" chatData)) as [choice|]; [|discriminate].
  destruct (or_else _ _) as [| | |text| |]; try discriminate.
  destruct (truthy (field "useAvatar" body) && truthy (field "sessionId" body));
    [|discriminate].
  intros E. injection E as <- <-.
  exists (truncateToMaxWords text MAX_RESPONSE_WORDS). split; [|split].
  - cbn [rq_args present]. destruct (field "sessionId" body); reflexivity.
  - intros ok2 status2 speakData chunks2 Hnull.
    destruct speakData; try congruence;
      cbn [prop]; destruct (opt_prop _ "task_id");
      eexists; (split; [reflexivity|]); split; reflexivity.
  - eexists. split; [reflexivity|]. split; reflexivity.
Qed.

Lemma conversation_avatar_unchecked_witness :
  exists rq k rq2 k2 b,
    conversation (JObj [(js "messages", JArr []);
                        (js "sessionId", JStr (js "s1"));
                        (js "useAvatar", JBool true)]) = Ask rq k /\
    k (Reply true 200 (Some (JObj [(js "choices", JArr [])])) []) = Ask rq2 k2 /\
    k2 (Reply false 401 (Some (JObj [(js "message", JStr (js "Unauthorized"))])) [])
    = Answer (Json 200 b) /\
    field "useAvatar" b = Some (JBool true).
Proof.
  eexists _, _, _, _.
  destruct (conversation_avatar_unchecked
              (JObj [(js "messages", JArr []);
                     (js "sessionId", JStr (js "s1"));
                     (js "useAvatar", JBool true)])
              _ _ 200 (Some (JObj [(js "choices", JArr [])])) [] _ _
              eq_refl eq_refl) as (text & _ & Hany & _).
  destruct (Hany false 401%Z (JObj [(js "message", JStr (js "Unauthorized"))]) []
              ltac:(discriminate)) as (b & Hb & _ & Hflag).
  exists b. split; [reflexivity|]. split; [reflexivity|].
  split; [exact Hb | exact Hflag].
Defined.

(** ** Vendor failures *)

Lemma relay_error_shape key fallback status error :
  (exists m, relay_error key fallback status error = Json status (error_body m))
  \/ relay_error key fallback status error = internal_error.
Proof.
  unfold relay_error. destruct (prop _ key); [left; eexists; reflexivity | right; reflexivity].
Qed.

Lemma relay_error_readable key fallback status error :
  error <> Some JNull ->
  exists m, relay_error key fallback status error = Json status (error_body m).
Proof.
  intros H. unfold relay_error.
  destruct error as [[]|]; try congruence; eexists; reflexivity.
Qed.

(** X6.  Every end point that relays one vendor call answers a transport
    failure with 500 ["Internal server error"], and a vendor response that
    is not ok either with the status of the vendor and a body of the form
    [{error: ...}], or with that 500.  Apart from [POST /api/chat] they
    always relay the status of the vendor unless its error body is the
    JSON [null]; [POST /api/chat] turns an error body that cannot be read
    into a 500. *)
Theorem vendor_failures_relayed :
  (forall h body rq k,
      In h endpoints -> h body = CallVendor rq k ->
      k FetchRejected = internal_error /\
      forall status error chunks,
        (exists m, k (Reply false status error chunks)
                   = Json status (error_body m))
        \/ k (Reply false status error chunks) = internal_error) /\
  (forall h body rq k status error chunks,
      In h lenient_endpoints -> h body = CallVendor rq k ->
      error <> Some JNull ->
      exists m, k (Reply false status error chunks)
                = Json status (error_body m)) /\
  (forall body rq k status chunks,
      chat body = CallVendor rq k ->
      k (Reply false status None chunks) = internal_error).
Proof.
  split; [|split].
  - intros h body rq k Hin E.
    cbn [In endpoints] in Hin.
    destruct Hin as [<-|[<-|[<-|[<-|[<-|[<-|[<-|[]]]]]]]].
    + unfold chat in E.
      destruct (negb _ || negb _); [discriminate|]. injection E as _ <-.
      split; [reflexivity|]. intros status [error|] chunks; [|right; reflexivity].
      destruct error;
        first [left; eexists; reflexivity | right; reflexivity].
    + unfold tts_elevenlabs in E. destruct (negb _); [discriminate|].
      injection E as _ <-. split; [reflexivity|]. intros status error chunks.
      destruct error as [[]|];
        first [left; eexists; reflexivity | right; reflexivity].
    + unfold tts_elevenlabs_with_timestamps in E. destruct (negb _); [discriminate|].
      injection E as _ <-. split; [reflexivity|]. intros. apply relay_error_shape.
    + unfold heygen_create_session in E. injection E as _ <-.
      split; [reflexivity|]. intros. apply relay_error_shape.
    + unfold heygen_speak in E. destruct (negb _ || negb _); [discriminate|].
      injection E as _ <-. split; [reflexivity|]. intros. apply relay_error_shape.
    + unfold heygen_close_session in E. destruct (negb _); [discriminate|].
      injection E as _ <-. split; [reflexivity|]. intros. apply relay_error_shape.
    + unfold heygen_avatars in E. injection E as _ <-.
      split; [reflexivity|]. intros. apply relay_error_shape.
  - intros h body rq k status error chunks Hin E Hnull.
    cbn [In lenient_endpoints] in Hin.
    destruct Hin as [<-|[<-|[<-|[<-|[<-|[<-|[]]]]]]].
    + unfold tts_elevenlabs in E. destruct (negb _); [discriminate|].
      injection E as _ <-.
      destruct error as [[]|]; try congruence; eexists; reflexivity.
    + unfold tts_elevenlabs_with_timestamps in E. destruct (negb _); [discriminate|].
      injection E as _ <-. apply relay_error_readable; assumption.
    + unfold heygen_create_session in E. injection E as _ <-.
      apply relay_error_readable; assumption.
    + unfold heygen_speak in E. destruct (negb _ || negb _); [discriminate|].
      injection E as _ <-. apply relay_error_readable; assumption.
    + unfold heygen_close_session in E. destruct (negb _); [discriminate|].
      injection E as _ <-. apply relay_error_readable; assumption.
    + unfold heygen_avatars in E. injection E as _ <-.
      apply relay_error_readable; assumption.
  - intros body rq k status chunks E. unfold chat in E.
    destruct (negb _ || negb _); [discriminate|]. injection E as _ <-.
    reflexivity.
Qed.

(** ** The CORS policy *)

Lemma str_eqb_eq a b : str_eqb a b = true <-> a = b.
Proof.
  revert b. induction a as [|x a IH]; intros [|y b]; cbn;
    try (split; (discriminate || reflexivity)).
  rewrite andb_true_iff, N.eqb_eq, IH. split.
  - intros [-> ->]. reflexivity.
  - intros E. injection E as -> ->. split; reflexivity.
Qed.

Lemma startsWith_spec s sub :
  startsWith s sub = true <-> exists post, s = sub ++ post.
Proof.
  revert s. induction sub as [|x sub IH]; intros s.
  - split; [intros _; exists s; reflexivity | intros _; destruct s; reflexivity].
  - destruct s as [|y s]; cbn.
    + split; [discriminate | intros (post & E); discriminate].
    + rewrite andb_true_iff, N.eqb_eq, IH. split.
      * intros (-> & post & ->). exists post. reflexivity.
      * intros (post & E). injection E as -> ->. split; [reflexivity|].
        exists post. reflexivity.
Qed.

(** [includes] finds the text exactly when it occurs somewhere. *)
Lemma includes_spec s sub :
  includes s sub = true <-> exists pre post, s = pre ++ sub ++ post.
Proof.
  induction s as [|y s IH].
  - cbn [includes]. rewrite orb_false_r, startsWith_spec. split.
    + intros (post & E). exists [], post. exact E.
    + intros (pre & post & E). destruct pre; [exists post; exact E|discriminate].
  - cbn [includes]. rewrite orb_true_iff, startsWith_spec, IH. split.
    + intros [(post & E) | (pre & post & E)].
      * exists [], post. exact E.
      * exists (y :: pre), post. rewrite E. reflexivity.
    + intros (pre & post & E). destruct pre as [|z pre].
      * left. exists post. exact E.
      * right. injection E as -> E. exists pre, post. exact E.
Qed.

Lemma array_includes_spec a x : array_includes a x = true <-> In x a.
Proof.
  unfold array_includes. rewrite existsb_exists. split.
  - intros (y & Hy & E). apply str_eqb_eq in E. subst. assumption.
  - intros H. exists x. split; [assumption | apply str_eqb_eq; reflexivity].
Qed.

(** Splitting at a separator undoes joining with it, for pieces that do
    not hold the separator. *)
Lemma split_at_join sep l :
  l <> [] -> Forall (fun p => ~ In sep p) l ->
  split_at sep (join [sep] l) = l.
Proof.
  intros Hne Hl. induction Hl as [|p l Hp Hl IH]; [congruence|].
  assert (Hrun : forall s, split_at sep (p ++ s)
                           = match split_at sep s with
                             | h :: r => (p ++ h) :: r
                             | [] => [p]
                             end).
  { intros s. clear -Hp. induction p as [|u p IHp]; cbn [app].
    - destruct s as [|v s]; cbn; [reflexivity|].
      destruct (v =? sep); [reflexivity|]. destruct (split_at sep s); reflexivity.
    - cbn [split_at].
      destruct (N.eqb_spec u sep) as [->|_]; [exfalso; apply Hp; left; reflexivity|].
      rewrite IHp by (intros H; apply Hp; right; exact H).
      destruct (split_at sep s); reflexivity. }
  destruct l as [|q l'].
  - cbn [join]. rewrite <- (app_nil_r p), Hrun. cbn. rewrite app_nil_r. reflexivity.
  - change (join [sep] (p :: q :: l')) with (p ++ sep :: join [sep] (q :: l')).
    rewrite Hrun. cbn [split_at]. rewrite N.eqb_refl, IH by discriminate.
    rewrite app_nil_r. reflexivity.
Qed.

(** X7.  The CORS policy allows a request exactly when it has no Origin
    header (or an empty one), or its origin holds [".vercel.app"] or
    [".vercel.sh"] anywhere, or its origin is one of the allowed origins
    (the pieces of [ALLOWED_ORIGINS] between commas, or the six local
    defaults when it is unset), or [VERCEL] is set. *)
Theorem cors_origin_allowed ALLOWED_ORIGINS VERCEL origin :
  cors_origin ALLOWED_ORIGINS VERCEL origin = true <->
  match origin with
  | None | Some [] => True
  | Some o =>
      (exists pre post, o = pre ++ js ".vercel.app" ++ post) \/
      (exists pre post, o = pre ++ js ".vercel.sh" ++ post) \/
      In o (allowedOrigins ALLOWED_ORIGINS) \/
      nonempty VERCEL = true
  end.
Proof.
  destruct origin as [[|c o]|]; [tauto| |tauto].
  unfold cors_origin.
  rewrite <- !includes_spec, <- array_includes_spec.
  destruct (includes (c :: o) (js ".vercel.app")); [cbn [orb]; tauto|].
  destruct (includes (c :: o) (js ".vercel.sh")); [cbn [orb]; tauto|].
  cbn [orb].
  destruct (array_includes (allowedOrigins ALLOWED_ORIGINS) (c :: o)); [tauto|].
  destruct (nonempty VERCEL); [tauto|].
  split; [discriminate|]. intros [H|[H|[H|H]]]; discriminate.
Qed.

(** X8.  With [ALLOWED_ORIGINS] set to origins joined by commas and
    [VERCEL] unset, an origin that does not hold a Vercel suffix is
    allowed exactly when it is one of those origins, compared character
    by character: the local defaults no longer count. *)
Theorem cors_origin_configured (l : list jsstring) (o : jsstring) :
  l <> [] -> Forall (fun p => ~ In 0x2C p) l ->
  o <> [] ->
  includes o (js ".vercel.app") = false ->
  includes o (js ".vercel.sh") = false ->
  (cors_origin (Some (join [0x2C] l)) None (Some o) = true <-> In o l).
Proof.
  intros Hne Hl Ho H1 H2.
  destruct o as [|c o]; [congruence|].
  unfold cors_origin, allowedOrigins. rewrite H1, H2. cbn [orb nonempty].
  rewrite split_at_join by assumption.
  rewrite <- array_includes_spec.
  destruct (array_includes l (c :: o)); split; (reflexivity || discriminate || auto).
Qed.

Lemma cors_origin_configured_witness :
  cors_origin (Some (js "https://a.example,https://b.example")) None
              (Some (js "https://b.example")) = true /\
  cors_origin (Some (js "https://a.example,https://b.example")) None
              (Some (js "http://localhost:3000")) = false.
Proof.
  assert (Hl : Forall (fun p => ~ In 0x2C p)
                 [js "https://a.example"; js "https://b.example"])
    by (repeat constructor; cbn; intuition discriminate).
  pose proof (fun o => cors_origin_configured
                [js "https://a.example"; js "https://b.example"] o
                ltac:(discriminate) Hl) as H.
  split.
  - exact (proj2 (H (js "https://b.example") ltac:(discriminate) eq_refl eq_refl)
             (or_intror (or_introl eq_refl))).
  - destruct (cors_origin (Some (js "https://a.example,https://b.example")) None
                (Some (js "http://localhost:3000"))) eqn:E; [|reflexivity].
    exfalso.
    destruct (proj1 (H (js "http://localhost:3000") ltac:(discriminate)
                       eq_refl eq_refl) E) as [E'|[E'|[]]]; discriminate.
Defined.

End GatewayFacts.

(* ===================================================================== *)
(** * Further properties of [TTSController] *)
(* ===================================================================== *)

Module TTSFacts.
Import JS JSFacts JSMore TTSController TTSProviders.

(** ** The cleaned text *)

Lemma words_are_words s : Forall word (words s).
Proof.
  induction s as [|u t IH]; [constructor|].
  destruct (is_ws u) eqn:Hu.
  - rewrite words_ws by assumption. exact IH.
  - rewrite words_char by assumption. destruct (boundary t).
    + constructor; [|exact IH]. split; [discriminate | repeat constructor; assumption].
    + destruct (words t) as [|p ps]; cbn [attach].
      * repeat constructor; [discriminate | assumption].
      * inversion IH as [|? ? [Hne Hp] Hps]; subst. constructor; [|assumption].
        split; [discriminate | constructor; assumption].
Qed.

Lemma words_word p s :
  word p -> words (p ++ s) =
            if boundary s then p :: words s
            else match words s with q :: qs => (p ++ q) :: qs | [] => [p] end.
Proof. intros [Hne Hp]. apply words_run; assumption. Qed.

(** The words of words joined by single spaces are those words. *)
Lemma words_join ws : Forall word ws -> words (join [0x20] ws) = ws.
Proof.
  induction 1 as [|p ps Hp Hps IH]; [reflexivity|].
  destruct ps as [|q qs].
  - cbn [join]. rewrite <- (app_nil_r p) at 1.
    rewrite words_word by assumption. reflexivity.
  - change (join [0x20] (p :: q :: qs)) with (p ++ 0x20 :: join [0x20] (q :: qs)).
    rewrite words_word by assumption. cbn [boundary]. rewrite is_ws_space.
    rewrite words_ws by apply is_ws_space. rewrite IH. reflexivity.
Qed.

Lemma collapse_ws_word p s :
  Forall (fun u => is_ws u = false) p ->
  collapse_ws (p ++ s) = p ++ collapse_ws s.
Proof.
  induction 1 as [|u p Hu _ IH]; [reflexivity|].
  cbn [app]. rewrite collapse_ws_cons, Hu, IH. reflexivity.
Qed.

Lemma join_head p ps :
  word p -> exists u r, join [0x20] (p :: ps) = u :: r /\ is_ws u = false.
Proof.
  intros [Hne Hp]. destruct p as [|u p']; [congruence|].
  inversion Hp; subst. rewrite join_cons_char. eauto.
Qed.

(** Words joined by single spaces have no whitespace to collapse. *)
Lemma collapse_ws_join ws :
  Forall word ws -> collapse_ws (join [0x20] ws) = join [0x20] ws.
Proof.
  induction 1 as [|p ps Hp Hps IH]; [reflexivity|].
  destruct ps as [|q qs].
  - cbn [join]. rewrite <- (app_nil_r p) at 1.
    rewrite collapse_ws_word by apply Hp. cbn. apply app_nil_r.
  - change (join [0x20] (p :: q :: qs)) with (p ++ 0x20 :: join [0x20] (q :: qs)).
    rewrite collapse_ws_word by apply Hp. f_equal.
    inversion Hps as [|? ? Hq _]; subst.
    destruct (join_head q qs Hq) as (u & r & E & Hu).
    rewrite collapse_ws_cons, is_ws_space, IH, E. cbn [boundary]. rewrite Hu.
    reflexivity.
Qed.

Lemma trim_join ws : Forall word ws -> trim (join [0x20] ws) = join [0x20] ws.
Proof.
  intros H. rewrite <- (collapse_ws_join ws H) at 1.
  rewrite trim_collapse_ws, words_join by assumption. reflexivity.
Qed.

Lemma last_after {A} (a b : list A) d :
  b <> [] -> last (a ++ b) d = last b d.
Proof.
  intros Hb. induction a as [|x a IH]; [reflexivity|].
  cbn [app]. destruct (a ++ b) eqn:E; [|exact IH].
  apply app_eq_nil in E. destruct E. congruence.
Qed.

Lemma cleanTextForTTS_joined s :
  exists ws, Forall word ws /\ cleanTextForTTS s = join [0x20] ws.
Proof.
  unfold cleanTextForTTS. rewrite trim_collapse_ws.
  eexists. split; [apply words_are_words | reflexivity].
Qed.

(** X9.  For every string, the cleaned text has its whitespace in order:
    collapsing its whitespace or trimming it again changes nothing, and it
    neither starts nor ends with whitespace. *)
Theorem cleanTextForTTS_tidy (s : jsstring) :
  collapse_ws (cleanTextForTTS s) = cleanTextForTTS s /\
  trim (cleanTextForTTS s) = cleanTextForTTS s /\
  is_ws (hd 0 (cleanTextForTTS s)) = false /\
  is_ws (last (cleanTextForTTS s) 0) = false.
Proof.
  destruct (cleanTextForTTS_joined s) as (ws & Hws & E). rewrite E.
  split; [apply collapse_ws_join; assumption|].
  split; [apply trim_join; assumption|].
  split.
  - destruct Hws as [|p ps Hp _]; [reflexivity|].
    destruct (join_head p ps Hp) as (u & r & E' & Hu). rewrite E'. exact Hu.
  - clear E. induction Hws as [|p ps Hp Hps IH]; [reflexivity|].
    destruct ps as [|q qs].
    + cbn [join]. destruct Hp as [Hne Hp].
      clear -Hp. induction Hp as [|u p Hu Hp IH]; [reflexivity|].
      destruct p; [exact Hu | exact IH].
    + change (join [0x20] (p :: q :: qs))
        with (p ++ 0x20 :: join [0x20] (q :: qs)).
      inversion Hps as [|? ? Hq _]; subst.
      destruct (join_head q qs Hq) as (u & r & E' & Hu).
      rewrite E' in *. rewrite last_after by discriminate.
      change (last (0x20 :: u :: r) 0) with (last (u :: r) 0). exact IH.
Qed.

Lemma filter_all {A} (f : A -> bool) l :
  (forall x, In x l -> f x = true) -> filter f l = l.
Proof.
  induction l as [|x l IH]; intros H; [reflexivity|].
  cbn [filter]. rewrite (H x (or_introl eq_refl)), IH; [reflexivity|].
  intros y Hy. apply H. right. exact Hy.
Qed.

Lemma cleanTextForTTS_utf16 cps :
  Forall scalar cps -> cleanTextForTTS (utf16 cps) = utf16 (cleaned_text cps).
Proof.
  intros H. unfold cleanTextForTTS, cleaned_text.
  rewrite TTSSpec.remove_ranges_utf16 by assumption.
  rewrite trim_collapse_ws, words_utf16 by
    (apply Forall_filter_keep; assumption).
  apply join_utf16.
Qed.

Lemma cleaned_text_scalar cps : Forall scalar cps -> Forall scalar (cleaned_text cps).
Proof.
  intros H. apply Forall_forall. intros x Hx.
  destruct (TTSSpec.cleaned_text_from _ _ Hx) as [-> | [Hin _]].
  - exact TTSSpec.scalar_space.
  - exact (proj1 (Forall_forall _ _) H x Hin).
Qed.

Lemma cleaned_text_twice cps : cleaned_text (cleaned_text cps) = cleaned_text cps.
Proof.
  unfold cleaned_text at 1.
  rewrite filter_all.
  - unfold cleaned_text. rewrite words_join by apply words_are_words. reflexivity.
  - intros x Hx. apply negb_true_iff.
    destruct (TTSSpec.cleaned_text_from _ _ Hx) as [-> | [_ Hk]];
      [reflexivity | assumption].
Qed.

(** X10.  On a well-formed string, cleaning is idempotent: cleaning the
    cleaned text again gives the same text. *)
Theorem cleanTextForTTS_idempotent (cps : list N) :
  Forall scalar cps ->
  cleanTextForTTS (cleanTextForTTS (utf16 cps)) = cleanTextForTTS (utf16 cps).
Proof.
  intros H.
  rewrite (cleanTextForTTS_utf16 cps H).
  rewrite (cleanTextForTTS_utf16 (cleaned_text cps) (cleaned_text_scalar cps H)).
  rewrite cleaned_text_twice. reflexivity.
Qed.

Lemma cleanTextForTTS_idempotent_witness :
  cleanTextForTTS
    (cleanTextForTTS (js "  Hi " ++ [0xD83C; 0xDF89; 0x2600] ++ js "  there "))
  = cleanTextForTTS (js "  Hi " ++ [0xD83C; 0xDF89; 0x2600] ++ js "  there ").
Proof.
  exact (cleanTextForTTS_idempotent
           (js "  Hi " ++ [0x1F389; 0x2600] ++ js "  there ")
           ltac:(repeat constructor)).
Defined.

(** ** [speak] *)

Lemma since_app_log c c' new :
  log c' = log c ++ new -> since c c' = new.
Proof. intros H. exact (TTSSpec.since_app c (log c) new eq_refl c' H). Qed.

Lemma speakWithBrowser_trace text fate c :
  exists new,
    log (snd (speakWithBrowser text fate c)) = log c ++ Run Browser :: new /\
    count is_any_run new = 0%nat /\
    count is_audioError new = 0%nat /\
    (count is_onStart new <= 1)%nat /\
    (count is_onEnd new <= 1)%nat /\
    (forall e, fst (speakWithBrowser text fate c) = Rejected e ->
               count is_onEnd new = 0%nat) /\
    onEndCallback (snd (speakWithBrowser text fate c)) = onEndCallback c /\
    currentProvider (snd (speakWithBrowser text fate c)) = currentProvider c.
Proof.
  unfold speakWithBrowser.
  destruct c as [a p pl [s|] u [os|] [oe|] l];
    destruct fate as [[|] [ | code | ]]; cbn -[js str_eqb];
    try match goal with
        | |- context [str_eqb ?a ?b] => destruct (str_eqb a b)
        end;
    cbn -[js]; rewrite <- ?app_assoc; cbn -[js];
    eexists; (split; [reflexivity|]); cbn; repeat split; try lia;
    intros; discriminate.
Qed.

Lemma onAudioError_log e c :
  log (onAudioError e c)
  = log c ++ AudioError e
      :: match onEndCallback c with
         | Some cb => [CallOnEnd cb]
         | None => []
         end.
Proof.
  unfold onAudioError, fire_onEnd. cbn.
  destruct (onEndCallback c); cbn; rewrite <- ?app_assoc; reflexivity.
Qed.

Lemma count_app f a b : count f (a ++ b) = (count f a + count f b)%nat.
Proof. unfold count. rewrite filter_app, length_app. reflexivity. Qed.

Lemma speak_browser text onStart onEnd env c :
  currentProvider c = js "browser" ->
  speak text onStart onEnd env c
  = match speakWithBrowser (cleanTextForTTS text) (first_utterance env)
            (set_callbacks onStart onEnd c) with
    | (Rejected error, c') => (Resolved, onAudioError error c')
    | done => done
    end.
Proof.
  intros Hp. unfold speak.
  change (currentProvider (set_callbacks onStart onEnd c))
    with (currentProvider c).
  rewrite Hp.
  change (str_eqb (js "browser") (js "elevenlabs")) with false.
  change (str_eqb (js "browser") (js "openai")) with false. cbv iota.
  assert (Hprov : forall t f, currentProvider
                     (snd (speakWithBrowser t f (set_callbacks onStart onEnd c)))
                   = js "browser").
  { intros t f.
    destruct (speakWithBrowser_trace t f (set_callbacks onStart onEnd c))
      as (? & _ & _ & _ & _ & _ & _ & _ & H).
    rewrite H. exact Hp. }
  specialize (Hprov (cleanTextForTTS text) (first_utterance env)).
  destruct (speakWithBrowser (cleanTextForTTS text) (first_utterance env)
              (set_callbacks onStart onEnd c)) as [[| e |] c'];
    try reflexivity.
  cbn [snd] in Hprov. rewrite Hprov.
  change (str_eqb (js "browser") (js "browser")) with true. reflexivity.
Qed.

(** X11.  With the provider ['browser'], [speak] never rejects: a failure
    of the local producer is handed to [onAudioError], exactly once, which
    invokes [onEnd] exactly once when it is registered, and [speak]
    resolves.  Only the browser producer runs, once. *)
Theorem speak_browser_never_rejects text onStart onEnd env c :
  currentProvider c = js "browser" ->
  let r := speak text onStart onEnd env c in
  let new := since c (snd r) in
  (forall e, fst r <> Rejected e) /\
  count is_any_run new = 1%nat /\
  (forall e,
      fst (speakWithBrowser (cleanTextForTTS text) (first_utterance env)
             (set_callbacks onStart onEnd c)) = Rejected e ->
      fst r = Resolved /\
      count is_audioError new = 1%nat /\
      count is_onEnd new = match onEnd with Some _ => 1%nat | None => 0%nat end).
Proof.
  intros Hp r new. subst new r. rewrite (speak_browser _ _ _ _ _ Hp).
  destruct (speakWithBrowser_trace (cleanTextForTTS text) (first_utterance env)
              (set_callbacks onStart onEnd c))
    as (new & Hlog & Hany & Herr & Hstart & Hend & Hrej & Hcb & _).
  destruct (speakWithBrowser (cleanTextForTTS text) (first_utterance env)
              (set_callbacks onStart onEnd c)) as [[| e |] c'] eqn:E;
    cbn [fst snd] in *.
  - split; [discriminate|]. split; [|discriminate].
    rewrite (since_app_log c _ _ Hlog). unfold count in *. cbn. lia.
  - split; [discriminate|].
    assert (Hs : since c (onAudioError e c')
                 = Run Browser :: new ++ AudioError e
                     :: match onEnd with Some cb => [CallOnEnd cb] | None => [] end).
    { apply (TTSSpec.since_app c (log c) _ eq_refl).
      rewrite onAudioError_log, Hlog, Hcb. cbn. rewrite <- app_assoc. reflexivity. }
    rewrite Hs. split.
    + change (Run Browser :: new ++ ?x) with ([Run Browser] ++ new ++ x).
      rewrite !count_app. fold (count is_any_run new). rewrite Hany.
      destruct onEnd; reflexivity.
    + intros e' He'. split; [reflexivity|].
      change (Run Browser :: new ++ ?x) with ([Run Browser] ++ new ++ x).
      rewrite !count_app, Herr, (Hrej e eq_refl).
      destruct onEnd; split; reflexivity.
  - split; [discriminate|]. split; [|discriminate].
    rewrite (since_app_log c _ _ Hlog). unfold count in *. cbn. lia.
Qed.

Lemma speak_browser_never_rejects_witness :
  fst (speak (js "Hello") None (Some (Callback 2)) all_producers_fail
         (constructed (js "browser") (Some {| utterances := [] |})))
  = Resolved.
Proof.
  destruct (speak_browser_never_rejects (js "Hello") None (Some (Callback 2))
              all_producers_fail
              (constructed (js "browser") (Some {| utterances := [] |}))
              eq_refl) as (_ & _ & H).
  exact (proj1 (H (Error (js "Speech synthesis error: synthesis-failed"))
                  eq_refl)).
Defined.

(** The configured remote producer starts the playback. *)
Lemma speak_remote_success text onStart onEnd env c st url a :
  currentProvider c = js "elevenlabs" \/ currentProvider c = js "openai" ->
  relay env = RelayResponse true st (Some url) ->
  audioPlayer c = Some a ->
  exists p rq,
    p <> Browser /\
    speak text onStart onEnd env c
    = (Resolved,
       emit (Play url)
         (set_audioPlayer
            (Some {| src := url; paused := false; currentTime := currentTime a |})
            (emit (Request rq (cleanTextForTTS text))
               (emit (Run p) (set_callbacks onStart onEnd c))))).
Proof.
  intros Hprov Hrelay Haudio. unfold speak.
  change (currentProvider (set_callbacks onStart onEnd c))
    with (currentProvider c).
  destruct Hprov as [Hp | Hp]; rewrite Hp.
  - exists ElevenLabs, (CONFIG.API.BASE_URL ++ js "/tts/elevenlabs").
    split; [discriminate|].
    change (str_eqb (js "elevenlabs") (js "elevenlabs")) with true. cbv iota.
    unfold speakWithElevenLabs, speakWithRemote. rewrite Hrelay.
    unfold playAudio.
    change (audioPlayer (emit _ (emit _ (set_callbacks onStart onEnd c))))
      with (audioPlayer c).
    rewrite Haudio. reflexivity.
  - exists OpenAI, (CONFIG.API.BASE_URL ++ js "/tts/openai").
    split; [discriminate|].
    change (str_eqb (js "openai") (js "elevenlabs")) with false.
    change (str_eqb (js "openai") (js "openai")) with true. cbv iota.
    unfold speakWithOpenAI, speakWithRemote. rewrite Hrelay.
    unfold playAudio.
    change (audioPlayer (emit _ (emit _ (set_callbacks onStart onEnd c))))
      with (audioPlayer c).
    rewrite Haudio. reflexivity.
Qed.




(** With a provider name outside the three, the browser producer is the
    primary one and is retried when it fails: it runs twice and invokes
    [onStart] twice. *)
Example speak_unknown_provider :
  let r := speak (js "Hello") (Some (Callback 1)) None
             {| relay := RelayUnreachable;
                first_utterance := {| starts := true;
                                      close := Fails (js "interrupted") |};
                retry_utterance := {| starts := true; close := Ends |} |}
             (constructed (js "polly") (Some {| utterances := [] |})) in
  count (is_run Browser) (log (snd r)) = 2%nat /\
  count is_onStart (log (snd r)) = 2%nat.
Proof. split; reflexivity. Qed.



(** X13.  With a remote provider whose relay answers with audio, [speak]
    resolves as soon as the playback is started: it runs one producer,
    sets the audio element playing from the start of the new source, and
    invokes no callback.  [onStart] and [onEnd] are delivered afterwards,
    once each, by the handlers of the [play] and [ended] events, which set
    and clear [isPlaying]. *)
Theorem speak_remote_resolves_at_start text onStart onEnd env c st url a :
  currentProvider c = js "elevenlabs" \/ currentProvider c = js "openai" ->
  relay env = RelayResponse true st (Some url) ->
  audioPlayer c = Some a ->
  let r := speak text onStart onEnd env c in
  let playing := onAudioStart (snd r) in
  let ended := onAudioEnd playing in
  fst r = Resolved /\
  count is_any_run (since c (snd r)) = 1%nat /\
  count is_onStart (since c (snd r)) = 0%nat /\
  count is_onEnd (since c (snd r)) = 0%nat /\
  audioPlayer (snd r)
  = Some {| src := url; paused := false; currentTime := currentTime a |} /\
  isPlaying playing = true /\
  since (snd r) playing
  = match onStart with Some cb => [CallOnStart cb] | None => [] end /\
  isPlaying ended = false /\
  since playing ended
  = match onEnd with Some cb => [CallOnEnd cb] | None => [] end.
Proof.
  intros Hprov Hrelay Haudio r playing ended. subst ended playing r.
  destruct (speak_remote_success text onStart onEnd env c st url a
              Hprov Hrelay Haudio) as (p & rq & Hne & E).
  rewrite E. cbn [fst snd].
  split; [reflexivity|].
  rewrite (since_app_log c _ [Run p; Request rq (cleanTextForTTS text); Play url])
    by (cbn; rewrite <- !app_assoc; reflexivity).
  split; [reflexivity|]. split; [reflexivity|]. split; [reflexivity|].
  split; [reflexivity|]. split; [destruct onStart; reflexivity|].
  split.
  - apply since_app_log. destruct onStart; cbn; rewrite ?app_nil_r; reflexivity.
  - split; [destruct onStart, onEnd; reflexivity|].
    apply since_app_log. destruct onStart, onEnd; cbn; rewrite ?app_nil_r; reflexivity.
Qed.

Lemma speak_remote_resolves_at_start_witness :
  fst (speak (js "Hello") (Some (Callback 1)) (Some (Callback 2))
         {| relay := RelayResponse true (js "200") (Some (js "blob:1"));
            first_utterance := {| starts := false; close := Silent |};
            retry_utterance := {| starts := false; close := Silent |} |}
         (constructed (js "elevenlabs") None))
  = Resolved.
Proof.
  exact (proj1 (speak_remote_resolves_at_start
                  (js "Hello") (Some (Callback 1)) (Some (Callback 2))
                  {| relay := RelayResponse true (js "200") (Some (js "blob:1"));
                     first_utterance := {| starts := false; close := Silent |};
                     retry_utterance := {| starts := false; close := Silent |} |}
                  (constructed (js "elevenlabs") None)
                  (js "200") (js "blob:1")
                  {| src := []; paused := true; currentTime := 0 |}
                  (or_introl eq_refl) eq_refl eq_refl)).
Defined.

End TTSFacts.

(* ===================================================================== *)
(** * Further properties of [ConversationController] *)
(* ===================================================================== *)

Module ConversationFacts.
Import JS JSFacts ConversationController ConversationStore ConversationSpec.

(** ** What the parts of [sendMessage] do to the history *)

Lemma addToHistory_saved r text bk c :
  storage_ok bk = true ->
  savedHistory (snd (addToHistory r text bk c))
  = Some (conversationHistory (snd (addToHistory r text bk c))).
Proof.
  intros H. unfold addToHistory, addToHistory_with, saveHistory, renderHistoryMessage.
  rewrite H. cbn [historyContent set_savedHistory set_conversationHistory].
  destruct (historyContent c), (render_ok bk); reflexivity.
Qed.

Lemma addToHistory_bound r text bk c :
  (length (conversationHistory (snd (addToHistory r text bk c))) <= 50)%nat.
Proof. rewrite addToHistory_history, most_recent_length. lia. Qed.

Lemma sendMessage_begin_history userMessage bk c :
  snd (sendMessage_begin userMessage bk c) = c \/
  (conversationHistory (snd (sendMessage_begin userMessage bk c))
   = conversationHistory
       (snd (addToHistory User (Str userMessage) bk (set_isProcessing true c)))
   /\
   savedHistory (snd (sendMessage_begin userMessage bk c))
   = savedHistory
       (snd (addToHistory User (Str userMessage) bk (set_isProcessing true c)))).
Proof.
  unfold sendMessage_begin. destruct (isProcessing c); [left; reflexivity|].
  right.
  destruct (addToHistory User (Str userMessage) bk (set_isProcessing true c))
    as [[|] c']; cbn; split; reflexivity.
Qed.

Lemma sendMessage_resume_history ms reply q bk c :
  conversationHistory (snd (sendMessage_resume ms reply q bk c))
  = conversationHistory
      (snd (addToHistory Assistant (callClaudeAPI ms reply q) bk c)) /\
  savedHistory (snd (sendMessage_resume ms reply q bk c))
  = savedHistory
      (snd (addToHistory Assistant (callClaudeAPI ms reply q) bk c)).
Proof.
  unfold sendMessage_resume.
  destruct (addToHistory Assistant _ bk c) as [[|] c']; cbn; split; reflexivity.
Qed.

Lemma exec_keeps_bound a p :
  (length (conversationHistory (controller p)) <= 50)%nat ->
  (length (conversationHistory (controller (fst (exec a p)))) <= 50)%nat.
Proof.
  intros H. destruct a as [userMessage bk | reply q bk | ok]; cbn [exec].
  - destruct (sendMessage_begin_history userMessage bk (controller p))
      as [E | [Eh _]];
      destruct (sendMessage_begin userMessage bk (controller p)) as [[e|e|ms] c2];
      cbn [fst snd controller] in *; subst;
      try assumption; rewrite Eh; apply addToHistory_bound.
  - destruct (outstanding p) as [ms|]; [|exact H].
    destruct (sendMessage_resume_history ms reply q bk (controller p))
      as [Eh _].
    destruct (sendMessage_resume ms reply q bk (controller p)) as [r c2].
    cbn [fst snd controller] in *. rewrite Eh. apply addToHistory_bound.
  - cbn [fst controller]. unfold clearHistory, saveHistory.
    destruct ok; cbn; destruct (historyContent (controller p)); cbn; lia.
Qed.

Lemma run_keeps_bound actions p :
  (length (conversationHistory (controller p)) <= 50)%nat ->
  (length (conversationHistory (controller (run actions p))) <= 50)%nat.
Proof.
  revert p. induction actions as [|a actions IH]; intros p Hp; [exact Hp|].
  cbn [run fold_left]. apply IH, exec_keeps_bound, Hp.
Qed.

(** X14.  On a page that starts with at most [maxHistoryMessages]
    messages, the history never holds more, whatever calls of
    [sendMessage], answers of the relay and calls of [clearHistory]
    follow, bookkeeping failures included. *)
Theorem history_always_bounded (c : t) (actions : list action) :
  (Z.of_nat (length (conversationHistory c)) <= CONFIG.UI.maxHistoryMessages)%Z ->
  (Z.of_nat (length (conversationHistory (controller (run actions (fresh c)))))
   <= CONFIG.UI.maxHistoryMessages)%Z.
Proof.
  unfold CONFIG.UI.maxHistoryMessages. intros H.
  pose proof (run_keeps_bound actions (fresh c)) as Hrun.
  change (conversationHistory (controller (fresh c)))
    with (conversationHistory c) in Hrun.
  specialize (Hrun ltac:(lia)). lia.
Qed.

Lemma history_always_bounded_witness :
  (Z.of_nat
     (length
        (conversationHistory
           (controller
              (run [Submit (js "Hello") (user_bk relay_down);
                    RelayAnswers ChatUnreachable (1 # 2) (assistant_bk relay_down)]
                   (fresh empty_controller)))))
   <= CONFIG.UI.maxHistoryMessages)%Z.
Proof.
  apply (history_always_bounded empty_controller).
  unfold CONFIG.UI.maxHistoryMessages, empty_controller. simpl. lia.
Defined.

(** ** The stored history *)

Lemma exec_keeps_in_sync a p :
  storage_accepts a = true ->
  in_sync (controller p) -> in_sync (controller (fst (exec a p))).
Proof.
  intros Ha H. destruct a as [userMessage bk | reply q bk | ok];
    cbn [exec storage_accepts] in *.
  - destruct (sendMessage_begin_history userMessage bk (controller p))
      as [E | [Eh Es]];
      destruct (sendMessage_begin userMessage bk (controller p)) as [[e|e|ms] c2];
      cbn [fst snd controller] in *; subst; try assumption;
      left; rewrite Eh, Es; apply addToHistory_saved; assumption.
  - destruct (outstanding p) as [ms|]; [|exact H].
    destruct (sendMessage_resume_history ms reply q bk (controller p))
      as [Eh Es].
    destruct (sendMessage_resume ms reply q bk (controller p)) as [r c2].
    cbn [fst snd controller] in *. left. rewrite Eh, Es.
    apply addToHistory_saved; assumption.
  - subst ok. left. unfold clearHistory, saveHistory. cbn.
    destruct (historyContent (controller p)); reflexivity.
Qed.

Lemma reload_restores c :
  in_sync c ->
  conversationHistory (reload c) = conversationHistory c /\
  historyContent (reload c) = Some (conversationHistory c).
Proof.
  unfold reload, construct, loadHistory. intros [E | [E1 E2]].
  - rewrite E. cbn. destruct (conversationHistory c); split; reflexivity.
  - rewrite E1, E2. split; reflexivity.
Qed.

(** X15.  As long as the storage accepts what is written, it holds the
    history of the controller after every call of [sendMessage], answer of
    the relay and call of [clearHistory], failures of the rendering
    included; loading the page again restores exactly that history and
    renders all of it. *)
Theorem history_persisted (c : t) (actions : list action) :
  in_sync c ->
  forallb storage_accepts actions = true ->
  let now := controller (run actions (fresh c)) in
  in_sync now /\
  conversationHistory (reload now) = conversationHistory now /\
  historyContent (reload now) = Some (conversationHistory now).
Proof.
  intros Hc Hok now.
  assert (H : in_sync now).
  { subst now. assert (H0 : in_sync (controller (fresh c))) by exact Hc.
    generalize dependent (fresh c). intros p. revert p Hok.
    clear. induction actions as [|a actions IH]; intros p Hok Hp; [exact Hp|].
    cbn [forallb] in Hok. apply andb_true_iff in Hok. destruct Hok as [Ha Hok].
    cbn [run fold_left]. apply IH; [exact Hok|].
    apply exec_keeps_in_sync; assumption. }
  split; [exact H|]. apply reload_restores. exact H.
Qed.

Lemma history_persisted_witness :
  let now :=
    controller
      (run [Submit (js "Hello") (user_bk relay_down);
            RelayAnswers ChatUnreachable (1 # 2) (assistant_bk panel_breaks)]
           (fresh empty_controller)) in
  length (conversationHistory now) = 2%nat /\
  conversationHistory (reload now) = conversationHistory now.
Proof.
  intros now. split; [reflexivity|].
  exact (proj1 (proj2 (history_persisted empty_controller
                         [Submit (js "Hello") (user_bk relay_down);
                          RelayAnswers ChatUnreachable (1 # 2)
                            (assistant_bk panel_breaks)]
                         (or_intror (conj eq_refl eq_refl)) eq_refl))).
Defined.

(** A storage that refuses the write keeps the older history: the page
    loaded again misses what was said since. *)
Example history_not_persisted :
  let bk := {| now := js "2026-01-01T00:00:00.000Z";
               storage_ok := false; render_ok := true |} in
  let c := snd (addToHistory User (Str (js "Hello")) bk empty_controller) in
  length (conversationHistory c) = 1%nat /\
  conversationHistory (reload c) = [].
Proof. split; reflexivity. Qed.

(** X16.  [getContext()] is the end of the history: at most ten messages,
    the most recent ones in their order, and the whole history when it has
    no more than ten. *)
Theorem getContext_recent (c : t) :
  (length (getContext c) <= 10)%nat /\
  getContext c = most_recent 10 (conversationHistory c) /\
  (exists older, conversationHistory c = older ++ getContext c) /\
  ((length (conversationHistory c) <= 10)%nat ->
   getContext c = conversationHistory c).
Proof.
  assert (E : getContext c = most_recent 10 (conversationHistory c)).
  { unfold getContext. change (-10)%Z with (Z.opp 10%Z).
    rewrite slice_from_suffix by lia. reflexivity. }
  rewrite E. split; [rewrite most_recent_length; lia|].
  split; [reflexivity|]. split.
  - eexists. symmetry. apply most_recent_suffix.
  - apply most_recent_all.
Qed.

(** ** The turn *)

Lemma last_map_snoc {A B} (f : A -> B) (l : list A) x d :
  last (map f (l ++ [x])) d = f x.
Proof.
  induction l as [|y l IH]; [reflexivity|].
  cbn [app map]. destruct (map f (l ++ [x])) eqn:E; [|exact IH].
  destruct l; discriminate.
Qed.

(** X17.  A call of [sendMessage] that is accepted sends the relay the
    whole history, not the ten messages of [getContext]: the roles and
    contents of the old history followed by the new user message, cut to
    the most recent [maxHistoryMessages]; the user message is the last
    one. *)
Theorem sendMessage_forwards_history userMessage bk c messages :
  fst (sendMessage_begin userMessage bk c) = Awaiting messages ->
  let message := {| role := User; content := Str userMessage;
                    timestamp := now bk |} in
  messages
  = map (fun m => (role m, content m))
        (most_recent 50 (conversationHistory c ++ [message])) /\
  last messages (Assistant, Undefined) = (User, Str userMessage) /\
  (length messages <= 50)%nat.
Proof.
  intros H message. unfold sendMessage_begin in H.
  destruct (isProcessing c); [discriminate|].
  pose proof (addToHistory_history User (Str userMessage) bk
                (set_isProcessing true c)) as Hh.
  destruct (addToHistory User (Str userMessage) bk (set_isProcessing true c))
    as [[|] c']; [|discriminate].
  cbn [fst snd] in *. injection H as <-. rewrite Hh.
  change (conversationHistory (set_isProcessing true c))
    with (conversationHistory c).
  split; [reflexivity|]. split.
  - rewrite (most_recent_snoc 50) by lia. rewrite last_map_snoc. reflexivity.
  - rewrite length_map, most_recent_length. lia.
Qed.

Lemma sendMessage_forwards_history_witness :
  fst (sendMessage_begin (js "Hello") (user_bk relay_down) empty_controller)
  = Awaiting [(User, Str (js "Hello"))].
Proof.
  assert (H : fst (sendMessage_begin (js "Hello") (user_bk relay_down)
                     empty_controller)
              = Awaiting [(User, Str (js "Hello"))]) by reflexivity.
  rewrite (proj1 (sendMessage_forwards_history _ _ _ _ H)). reflexivity.
Defined.

Lemma exec_submit_accepted userMessage bk p :
  isProcessing (controller p) = false ->
  render_ok bk = true ->
  let c1 := snd (addToHistory User (Str userMessage) bk
                   (set_isProcessing true (controller p))) in
  fst (exec (Submit userMessage bk) p)
  = {| controller := c1;
       outstanding := Some (map (fun m => (role m, content m))
                                (conversationHistory c1)) |}.
Proof.
  intros Hidle Hrender c1. subst c1. cbn [exec]. unfold sendMessage_begin.
  rewrite Hidle.
  pose proof (addToHistory_returns User (Str userMessage) bk
                (set_isProcessing true (controller p)) Hrender) as Hr.
  destruct (addToHistory User (Str userMessage) bk
              (set_isProcessing true (controller p))) as [[[]|] c1];
    [reflexivity | discriminate].
Qed.

(** X18.  Clearing the history while a reply is awaited does not cancel
    the turn: when the relay answers, the reply is appended to the
    emptied history, which then holds the assistant message alone,
    without the user message it answers. *)
Theorem clearHistory_during_turn userMessage bk ok reply q bk' c :
  render_ok bk = true ->
  let p := run [Submit userMessage bk; Clear ok; RelayAnswers reply q bk']
               (fresh c) in
  exists response,
    conversationHistory (controller p)
    = [{| role := Assistant; content := response; timestamp := now bk' |}] /\
    isProcessing (controller p) = false /\
    waiting p = false.
Proof.
  intros Hrender p. subst p. cbn [run fold_left].
  rewrite (exec_submit_accepted userMessage bk (fresh c) eq_refl Hrender).
  set (c1 := snd (addToHistory User (Str userMessage) bk
                    (set_isProcessing true (controller (fresh c))))).
  cbn [exec fst controller outstanding].
  set (ms := map (fun m => (role m, content m)) (conversationHistory c1)).
  pose proof (sendMessage_resume_history ms reply q bk' (clearHistory ok c1))
    as [Eh _].
  pose proof (sendMessage_resume_clears ms reply q bk' (clearHistory ok c1))
    as Hclr.
  destruct (sendMessage_resume ms reply q bk' (clearHistory ok c1)) as [r c2].
  cbn [fst snd controller] in *.
  eexists. split; [|split; [exact Hclr | reflexivity]].
  rewrite Eh, addToHistory_history.
  assert (Hc : conversationHistory (clearHistory ok c1) = []).
  { unfold clearHistory, saveHistory. destruct ok; cbn;
      destruct (historyContent c1); reflexivity. }
  rewrite Hc. reflexivity.
Qed.

Lemma clearHistory_during_turn_witness :
  length
    (conversationHistory
       (controller
          (run [Submit (js "Hello") (user_bk relay_down); Clear true;
                RelayAnswers ChatUnreachable (1 # 2) (assistant_bk relay_down)]
               (fresh empty_controller)))) = 1%nat.
Proof.
  destruct (clearHistory_during_turn (js "Hello") (user_bk relay_down) true
              ChatUnreachable (1 # 2) (assistant_bk relay_down) empty_controller
              eq_refl) as (response & E & _).
  rewrite E. reflexivity.
Defined.

(** X19.  When the relay answers ok with a body that can be read, an
    accepted turn whose bookkeeping succeeds resolves with the [response]
    of that body as it is, and the history ends with the user message and
    the assistant message that holds it. *)
Theorem sendMessage_relay_success userMessage env c response :
  isProcessing c = false ->
  reply env = ChatResponse true (Some response) ->
  render_ok (user_bk env) = true ->
  render_ok (assistant_bk env) = true ->
  fst (sendMessage userMessage env c) = Returned response /\
  conversationHistory (snd (sendMessage userMessage env c))
  = most_recent 48 (conversationHistory c)
      ++ [user_message userMessage env;
          {| role := Assistant; content := response;
             timestamp := now (assistant_bk env) |}] /\
  isProcessing (snd (sendMessage userMessage env c)) = false.
Proof.
  intros Hidle Hreply Hu Ha.
  rewrite (sendMessage_completes userMessage env c Hidle Hu Ha).
  rewrite Hreply. cbn [callClaudeAPI fst snd].
  split; [reflexivity|]. split; [|reflexivity].
  change (conversationHistory (set_isProcessing false ?x))
    with (conversationHistory x).
  rewrite !addToHistory_history.
  change (conversationHistory (set_isProcessing true c))
    with (conversationHistory c).
  rewrite (most_recent_snoc 50) by lia.
  rewrite (most_recent_snoc 50) by lia.
  rewrite (most_recent_snoc 49) by lia.
  rewrite most_recent_twice by lia.
  rewrite <- app_assoc. reflexivity.
Qed.

Lemma sendMessage_relay_success_witness :
  fst (sendMessage (js "Hello")
         {| user_bk := user_bk relay_down;
            reply := ChatResponse true (Some (Str (js "Hi.")));
            random := 0;
            assistant_bk := assistant_bk relay_down |}
         empty_controller)
  = Returned (Str (js "Hi.")).
Proof.
  exact (proj1 (sendMessage_relay_success (js "Hello")
                  {| user_bk := user_bk relay_down;
                     reply := ChatResponse true (Some (Str (js "Hi.")));
                     random := 0;
                     assistant_bk := assistant_bk relay_down |}
                  empty_controller (Str (js "Hi."))
                  eq_refl eq_refl eq_refl eq_refl)).
Defined.

End ConversationFacts.

(* ===================================================================== *)
(** * The avatar session and the presentation of a reply *)
(* ===================================================================== *)

Module SessionFacts.
Import JS HeyGenController HeyGenSession.

(** X20.  [createSession] never leaves the controller initializing: while
    a session is being initialized it returns at once, without a request
    and without touching the controller; otherwise it makes one request,
    and whether it resolves or rejects, [isInitializing] is cleared.  It
    resolves only with the session id of an ok answer after the WebRTC
    setup succeeded, and the avatar is then connected and available; when
    it rejects, [onError] is invoked with the error, if registered, and
    the avatar is connected no more than before. *)
Theorem createSession_settles (reply : session_reply) (webrtc_ok : bool) (c : t) :
  let '(result, c', signals) := createSession reply webrtc_ok c in
  if isInitializing c then
    result = Returned None /\ c' = c /\ signals = []
  else
    isInitializing c' = false /\
    hd_error signals
    = Some (Requested (CONFIG.API.BASE_URL ++ js "/heygen/create-session")) /\
    match result with
    | Returned sid =>
        sid = sessionId c' /\ sid <> None /\
        isConnected c' = true /\ isAvailable c' = true /\
        webrtc_ok = true /\
        exists e sid' tok,
          reply = SessionResponse true (Some (SessionObject e sid' tok)) /\
          sid = Some sid'
    | Thrown error =>
        isConnected c' = isConnected c /\
        tl signals = match onError c with
                     | Some cb => [CalledOnError cb error]
                     | None => []
                     end
    end.
Proof.
  unfold createSession. destruct (isInitializing c) eqn:Hinit.
  - repeat split; reflexivity.
  - destruct c as [sid tok conn ini oc od oss ose oe l].
    cbn in Hinit. subst ini.
    destruct reply as [|[|] [[|e sid' tok']|]], webrtc_ok;
      cbn -[js CONFIG.API.BASE_URL];
      try (destruct oe; repeat split; reflexivity);
      destruct oc; cbn -[js CONFIG.API.BASE_URL];
      repeat split; try reflexivity; try discriminate; eauto.
Qed.

Lemma closed_speak_refuses text reply c :
  isConnected c = false ->
  speak text reply c = (Returned false, c).
Proof. intros H. unfold speak. rewrite H. reflexivity. Qed.

(** X21.  [closeSession] never throws and makes a request only when there
    is a session.  When the request goes through, whatever the status of
    the answer, the session is forgotten: the avatar is no longer
    available and [speak] returns [false] without contacting the relay.
    When the request fails, the controller is left as it was, session
    included.  After [handleDisconnection] the session id is kept, but
    [speak] no longer contacts the relay either. *)
Theorem closeSession_forgets (c : t) :
  (no_session c = true -> forall fetched, closeSession fetched c = (c, [])) /\
  (no_session c = false ->
   let closed := fst (closeSession true c) in
   sessionId closed = None /\ accessToken closed = None /\
   isAvailable closed = false /\
   (forall text reply, speak text reply closed = (Returned false, closed)) /\
   fst (closeSession false c) = c /\
   snd (closeSession true c) = snd (closeSession false c) /\
   length (snd (closeSession true c)) = 1%nat) /\
  (let lost := fst (handleDisconnection c) in
   sessionId lost = sessionId c /\
   isAvailable lost = false /\
   forall text reply, speak text reply lost = (Returned false, lost)).
Proof.
  split; [|split].
  - intros H fetched. unfold closeSession. rewrite H. reflexivity.
  - intros H. unfold closeSession. rewrite H. cbn [fst snd].
    repeat split; try reflexivity;
      intros; apply closed_speak_refuses; reflexivity.
  - cbn [handleDisconnection fst].
    repeat split; try reflexivity;
      intros; apply closed_speak_refuses; reflexivity.
Qed.

End SessionFacts.

Module AppFacts.
Import JS App.

(** X22.  One reply is presented by one driver.  [speakResponse] lets the
    avatar speak when the avatar is in use, connected, has a session and
    its relay call succeeds, and then leaves the speech controller
    untouched; in every other case it calls [tts.speak] once, also after
    an avatar call that failed, which has been reported to [onError]. *)
Theorem speakResponse_one_driver text avatar_reply env app :
  let app' := speakResponse text avatar_reply env app in
  (if avatar_speaks avatar_reply app
   then tts app' = tts app
   else tts app'
        = snd (TTSController.speak text (Some onSpeechStart) (Some onSpeechEnd)
                 env (tts app))) /\
  useAvatar app' = useAvatar app /\
  match heygen app, heygen app' with
  | Some h, Some h' =>
      if useAvatar app && HeyGenController.isAvailable h
      then h' = snd (HeyGenController.speak text avatar_reply h)
      else h' = h
  | None, None => True
  | _, _ => False
  end.
Proof.
  unfold speakResponse, avatar_speaks.
  destruct app as [ua [h|] t]; cbn [useAvatar heygen tts];
    [|repeat split; reflexivity].
  destruct ua; cbn [andb]; [|repeat split; reflexivity].
  unfold HeyGenController.isAvailable in *.
  destruct (HeyGenController.isConnected h) eqn:Hc; cbn [andb] in *;
    [|repeat split; reflexivity].
  destruct (HeyGenController.sessionId h) as [[|ch sid]|] eqn:Hs;
    unfold HeyGenController.no_session; rewrite ?Hs; cbn [negb andb].
  - unfold HeyGenController.speak, HeyGenController.no_session.
    rewrite Hc, Hs. cbn. repeat split; reflexivity.
  - unfold HeyGenController.speak, HeyGenController.no_session.
    rewrite Hc, Hs. cbn [negb orb].
    destruct avatar_reply as [|[|] [[|e tk]|]];
      cbn -[js CONFIG.API.BASE_URL];
      repeat split; reflexivity.
  - repeat split; reflexivity.
Qed.

End AppFacts.
